(** * Neo4j vector search helpers: query assembly and fallback tracking

    A shallow embedding of [graphiti_core/search/neo4j_vector_search.py].

    Python values are modelled by the inductive [value]; dictionaries
    ([dict[str, Any]]) by [gmap string value]; query text by [string].
    The tracker works on objects: the attributes that it stores on its
    target, the classes through which a read falls, the assignments that
    an object refuses, and the records handed to [logger] are an explicit
    [world], threaded through a small state monad in which a call returns
    or raises. The assemblers are given twice: as functions of the answer
    of the filter constructor, and, in [InPlace], as calls that write into
    the list and the dict which that constructor returns. *)

From Stdlib Require Import Ascii String.
From stdpp Require Import base option list gmap strings.

Local Open Scope string_scope.
Local Open Scope list_scope.
Local Set Warnings "-register-all,-clear-no-such-hyp".

(** ** Python values *)

Inductive value : Type :=
  | VNone
  | VBool (b : bool)
  | VInt (z : Z)
  | VStr (s : string)
  | VList (l : list value).

(** [list[str]] as a Python value. *)
Definition str_list (l : list string) : value := VList (VStr <$> l).

(** Truthiness, as used by [not x] and [if x]. *)
Definition truthy (v : value) : bool :=
  match v with
  | VNone => false
  | VBool b => b
  | VInt z => negb (Z.eqb z 0)
  | VStr s => negb (String.eqb s "")
  | VList l => match l with [] => false | _ :: _ => true end
  end.

(** [v != s] for a string literal [s]. *)
Definition ne_str (v : value) (s : string) : bool :=
  match v with
  | VStr t => negb (String.eqb t s)
  | _ => true
  end.

(** ** Fallback-mode tracker *)

Module Tracker.

(** Object identity of a tracked target. *)
Definition target := positive.

(** The exception handed to the tracker, known by its rendering. *)
Record Exception := { exc_str : string }.

Inductive level := WARNING.

(** One call of [logger.<level>(fmt, arg)]. *)
Record log_record := {
  rec_level : level;
  rec_format : string;
  rec_arg : Exception
}.

(** What a mark does not change about the objects it meets: the classes
    through which a read falls when the object does not hold the attribute
    itself (its class and what that inherits from, in lookup order), which
    assignments the object takes (an object without [__dict__], a slotted
    or a frozen one refuses), and what its [__getattr__] answers for a name
    found nowhere. *)
Class ObjectModel := {
  bases : target -> list target;
  settable : target -> string -> bool;
  on_missing : target -> string -> option value
}.

(** What [setattr] raises on an object that does not take the attribute. *)
Inductive raised := AttributeError (t : target) (name : string).

Inductive outcome (A : Type) : Type :=
  | Returned (a : A)
  | Raised (e : raised).

Arguments Returned {A} a.
Arguments Raised {A} e.

(** Attributes are keyed by the object that holds them and their name. *)
Record world := {
  attrs : gmap (target * string) value;
  logged : list log_record
}.

Definition M (A : Type) : Type := world -> outcome A * world.

#[export] Instance M_ret : MRet M := fun A a w => (Returned a, w).

#[export] Instance M_bind : MBind M :=
  fun A B k m w =>
    match m w with
    | (Returned a, w') => k a w'
    | (Raised e, w') => (Raised e, w')
    end.

(** The first of the classes [cs] that holds [name]. *)
Fixpoint first_held (a : gmap (target * string) value) (name : string)
    (cs : list target) : option value :=
  match cs with
  | [] => None
  | c :: cs' =>
      match a !! (c, name) with
      | Some v => Some v
      | None => first_held a name cs'
      end
  end.

Definition _VECTOR_SEARCH_MODE_ATTR : string := "_neo4j_vector_search_mode".
Definition _VECTOR_SEARCH_FALLBACK_LOGGED_ATTR : string :=
  "_neo4j_vector_search_fallback_logged".

Section Objects.
Context `{OM : ObjectModel}.

(** What reading [t.name] finds: the object's own attribute, else the
    first class that holds it, else the answer of [__getattr__]. *)
Definition read (a : gmap (target * string) value) (t : target)
    (name : string) : option value :=
  match a !! (t, name) with
  | Some v => Some v
  | None =>
      match first_held a name (bases t) with
      | Some v => Some v
      | None => on_missing t name
      end
  end.

Definition getattr (t : target) (name : string) (dflt : value) : M value :=
  fun w => (Returned (default dflt (read (attrs w) t name)), w).

Definition setattr (t : target) (name : string) (v : value) : M unit :=
  fun w =>
    if settable t name
    then (Returned tt,
          {| attrs := <[(t, name) := v]> (attrs w); logged := logged w |})
    else (Raised (AttributeError t name), w).

Definition logger_warning (fmt : string) (exc : Exception) : M unit :=
  fun w => (Returned tt,
            {| attrs := attrs w;
               logged := logged w ++ [{| rec_level := WARNING;
                                         rec_format := fmt;
                                         rec_arg := exc |}] |}).

Definition when (b : bool) (m : M unit) : M unit :=
  if b then m else mret tt.

Definition should_use_search_index (t : target) : M bool :=
  mode ← getattr t _VECTOR_SEARCH_MODE_ATTR (VStr "search");
  mret (ne_str mode "fallback").

Definition mark_search_index_fallback (t : target) (exc : Exception) : M unit :=
  seen ← getattr t _VECTOR_SEARCH_FALLBACK_LOGGED_ATTR (VBool false);
  when (negb (truthy seen))
    (logger_warning "Neo4j SEARCH INDEX unavailable, falling back: %s" exc;;
     setattr t _VECTOR_SEARCH_FALLBACK_LOGGED_ATTR (VBool true));;
  setattr t _VECTOR_SEARCH_MODE_ATTR (VStr "fallback").

(** A target for which a read finds neither attribute. *)
Definition fresh (t : target) (w : world) : Prop :=
  read (attrs w) t _VECTOR_SEARCH_MODE_ATTR = None /\
  read (attrs w) t _VECTOR_SEARCH_FALLBACK_LOGGED_ATTR = None.

(** A target that takes both attributes of the tracker. *)
Definition accepts (t : target) : Prop :=
  settable t _VECTOR_SEARCH_MODE_ATTR = true /\
  settable t _VECTOR_SEARCH_FALLBACK_LOGGED_ATTR = true.

(** Has the one-shot warning been emitted for [t]? *)
Definition warned (t : target) (w : world) : bool :=
  truthy (default (VBool false)
            (read (attrs w) t _VECTOR_SEARCH_FALLBACK_LOGGED_ATTR)).

(** Marking a target several times in a row. *)
Fixpoint mark_each (t : target) (excs : list Exception) : M unit :=
  match excs with
  | [] => mret tt
  | exc :: rest => mark_search_index_fallback t exc;; mark_each t rest
  end.

End Objects.

(** The record that the first failure leaves in the log. *)
Definition fallback_warning (exc : Exception) : log_record :=
  {| rec_level := WARNING;
     rec_format := "Neo4j SEARCH INDEX unavailable, falling back: %s";
     rec_arg := exc |}.

Definition empty_world : world := {| attrs := ∅; logged := [] |}.

(** Plain instances: nothing inherited, every assignment taken. *)
Definition plain_objects : ObjectModel :=
  {| bases := fun _ => [];
     settable := fun _ _ => true;
     on_missing := fun _ _ => None |}.

(** Objects that take no new attribute, such as [object()]. *)
Definition sealed_objects : ObjectModel :=
  {| bases := fun _ => [];
     settable := fun _ _ => false;
     on_missing := fun _ _ => None |}.

(** Object 2 is an instance of the class that is object 1. *)
Definition class_and_instance : ObjectModel :=
  {| bases := fun t => if decide (t = 2%positive) then [1%positive] else [];
     settable := fun _ _ => true;
     on_missing := fun _ _ => None |}.

End Tracker.

(** ** Group-scope splitter *)

Definition split_group_ids (group_ids : option (list string))
  : option string * option (list string) :=
  match group_ids with
  | Some (g :: rest) =>
      if Nat.eqb (length (g :: rest)) 1 then (Some g, None) else (None, group_ids)
  | _ => (None, group_ids)
  end.

(** ** Collaborators

    The filter-predicate constructors, the return-projection fragments and
    the index names are imported by the module from the rest of the
    package; the assemblers are parameterised by them. *)

Class Collaborators := {
  SearchFilters : Type;
  GraphProvider : Type;
  NEO4J : GraphProvider;
  NEO4J_COMMUNITY_VECTOR_INDEX : string;
  NEO4J_EDGE_VECTOR_INDEX : string;
  NEO4J_ENTITY_VECTOR_INDEX : string;
  get_entity_edge_return_query : GraphProvider -> string;
  COMMUNITY_NODE_RETURN : string;
  get_entity_node_return_query : GraphProvider -> string;
  edge_search_filter_query_constructor :
    SearchFilters -> GraphProvider -> list string * gmap string value;
  node_search_filter_query_constructor :
    SearchFilters -> GraphProvider -> list string * gmap string value
}.

(** The line break inside the triple-quoted templates. *)
Definition nl : string := String "010"%char "".

(** [sep.join(l)] *)
Definition join (sep : string) (l : list string) : string := String.concat sep l.

(** Truthiness of a [str] and of a [list]. *)
Definition nonempty_str (s : string) : bool := negb (String.eqb s "").
Definition nonempty_list {A} (l : list A) : bool :=
  match l with [] => false | _ :: _ => true end.

(** ** Query assemblers *)

Section Assemblers.
Context `{Collaborators}.

Definition build_node_vector_search_query
    (search_filter : SearchFilters) (group_ids : option (list string))
  : string * gmap string value :=
  let '(search_group_id, post_group_ids) := split_group_ids group_ids in
  let '(filter_queries, filter_params) :=
    node_search_filter_query_constructor search_filter NEO4J in
  let '(filter_queries, filter_params) :=
    match post_group_ids with
    | Some ids => (filter_queries ++ ["n.group_id IN $group_ids"],
                   <["group_ids" := str_list ids]> filter_params)
    | None => (filter_queries, filter_params)
    end in
  let filter_query :=
    if nonempty_list filter_queries
    then " WHERE " +:+ join " AND " filter_queries
    else "" in
  let score_filter :=
    if nonempty_str filter_query
    then filter_query +:+ " AND score > $min_score"
    else " WHERE score > $min_score" in
  let '(search_where, search_params) :=
    match search_group_id with
    | Some g => (" WHERE n.group_id = $group_id",
                 <["group_id" := VStr g]> (∅ : gmap string value))
    | None => ("", ∅)
    end in
  let query :=
    (nl +:+ "        MATCH (n:Entity)"
     +:+ nl +:+ "        SEARCH n IN ("
     +:+ nl +:+ "            VECTOR INDEX ")
    +:+ NEO4J_ENTITY_VECTOR_INDEX
    +:+ (nl +:+ "            FOR $search_vector")
    +:+ search_where
    +:+ (nl +:+ "            LIMIT $limit"
         +:+ nl +:+ "        ) SCORE AS score"
         +:+ nl +:+ "        ")
    +:+ score_filter
    +:+ (nl +:+ "        RETURN"
         +:+ nl +:+ "        ")
    +:+ get_entity_node_return_query NEO4J
    +:+ (nl +:+ "        ORDER BY score DESC"
         +:+ nl +:+ "        LIMIT $limit"
         +:+ nl +:+ "        ") in
  let params := filter_params ∪ search_params in
  (query, params).

Definition build_community_vector_search_query
    (group_ids : option (list string)) : string * gmap string value :=
  let '(search_group_id, post_group_ids) := split_group_ids group_ids in
  let '(filter_query, filter_params) :=
    match post_group_ids with
    | Some ids => (" WHERE c.group_id IN $group_ids",
                   <["group_ids" := str_list ids]> (∅ : gmap string value))
    | None => ("", ∅)
    end in
  let score_filter :=
    if nonempty_str filter_query
    then filter_query +:+ " AND score > $min_score"
    else " WHERE score > $min_score" in
  let '(search_where, search_params) :=
    match search_group_id with
    | Some g => (" WHERE c.group_id = $group_id",
                 <["group_id" := VStr g]> (∅ : gmap string value))
    | None => ("", ∅)
    end in
  let query :=
    (nl +:+ "        MATCH (c:Community)"
     +:+ nl +:+ "        SEARCH c IN ("
     +:+ nl +:+ "            VECTOR INDEX ")
    +:+ NEO4J_COMMUNITY_VECTOR_INDEX
    +:+ (nl +:+ "            FOR $search_vector")
    +:+ search_where
    +:+ (nl +:+ "            LIMIT $limit"
         +:+ nl +:+ "        ) SCORE AS score"
         +:+ nl +:+ "        ")
    +:+ score_filter
    +:+ (nl +:+ "        RETURN"
         +:+ nl +:+ "        ")
    +:+ COMMUNITY_NODE_RETURN
    +:+ (nl +:+ "        ORDER BY score DESC"
         +:+ nl +:+ "        LIMIT $limit"
         +:+ nl +:+ "        ") in
  let params := filter_params ∪ search_params in
  (query, params).

Definition build_edge_vector_search_query
    (search_filter : SearchFilters) (group_ids : option (list string))
    (source_node_uuid target_node_uuid : option string)
  : string * gmap string value :=
  let '(search_group_id, post_group_ids) := split_group_ids group_ids in
  let '(filter_queries, filter_params) :=
    edge_search_filter_query_constructor search_filter NEO4J in
  let '(filter_queries, filter_params) :=
    match post_group_ids with
    | Some ids => (filter_queries ++ ["e.group_id IN $group_ids"],
                   <["group_ids" := str_list ids]> filter_params)
    | None => (filter_queries, filter_params)
    end in
  let '(filter_queries, filter_params) :=
    match group_ids with
    | Some _ =>
        let '(filter_queries, filter_params) :=
          match source_node_uuid with
          | Some u => (filter_queries ++ ["n.uuid = $source_uuid"],
                       <["source_uuid" := VStr u]> filter_params)
          | None => (filter_queries, filter_params)
          end in
        match target_node_uuid with
        | Some u => (filter_queries ++ ["m.uuid = $target_uuid"],
                     <["target_uuid" := VStr u]> filter_params)
        | None => (filter_queries, filter_params)
        end
    | None => (filter_queries, filter_params)
    end in
  let filter_query :=
    if nonempty_list filter_queries
    then " WHERE " +:+ join " AND " filter_queries
    else "" in
  let score_filter :=
    if nonempty_str filter_query
    then filter_query +:+ " AND score > $min_score"
    else " WHERE score > $min_score" in
  let '(search_where, search_params) :=
    match search_group_id with
    | Some g => (" WHERE e.group_id = $group_id",
                 <["group_id" := VStr g]> (∅ : gmap string value))
    | None => ("", ∅)
    end in
  let query :=
    (nl +:+ "        MATCH ()-[e:RELATES_TO]-()"
     +:+ nl +:+ "        SEARCH e IN ("
     +:+ nl +:+ "            VECTOR INDEX ")
    +:+ NEO4J_EDGE_VECTOR_INDEX
    +:+ (nl +:+ "            FOR $search_vector")
    +:+ search_where
    +:+ (nl +:+ "            LIMIT $limit"
         +:+ nl +:+ "        ) SCORE AS score"
         +:+ nl +:+ "        WITH e, score"
         +:+ nl +:+ "        MATCH (n:Entity)-[e:RELATES_TO]->(m:Entity)"
         +:+ nl +:+ "        ")
    +:+ score_filter
    +:+ (nl +:+ "        RETURN"
         +:+ nl +:+ "        ")
    +:+ get_entity_edge_return_query NEO4J
    +:+ (nl +:+ "        ORDER BY score DESC"
         +:+ nl +:+ "        LIMIT $limit"
         +:+ nl +:+ "        ") in
  let params := filter_params ∪ search_params in
  (query, params).

End Assemblers.

(** ** Reading a query text *)

(** Characters of a parameter name: letters, digits and the underscore. *)
Definition is_ident (c : ascii) : bool :=
  let n := nat_of_ascii c in
  (Nat.leb 48 n && Nat.leb n 57) || (Nat.leb 65 n && Nat.leb n 90)
  || (Nat.leb 97 n && Nat.leb n 122) || Nat.eqb n 95.

(** The longest run of name characters at the head of [s]. *)
Fixpoint take_ident (s : string) : string :=
  match s with
  | String c s' => if is_ident c then String c (take_ident s') else ""
  | EmptyString => ""
  end.

(** The [$name] placeholders of a text, in order of occurrence. *)
Fixpoint placeholders (s : string) : list string :=
  match s with
  | EmptyString => []
  | String c s' =>
      (if Ascii.eqb c "$"
       then match take_ident s' with EmptyString => [] | n => [n] end
       else [])
      ++ placeholders s'
  end.

Definition placeholder_set (s : string) : gset string :=
  list_to_set (placeholders s).

(** The placeholders of a list of predicate fragments. *)
Definition fragment_placeholders (l : list string) : gset string :=
  list_to_set (mjoin (placeholders <$> l)).

(** [s] starts with [p]. *)
Fixpoint starts_with (p s : string) : bool :=
  match p, s with
  | EmptyString, _ => true
  | String a p', String b s' => Ascii.eqb a b && starts_with p' s'
  | String _ _, EmptyString => false
  end.

(** [p in s] *)
Fixpoint occurs (p s : string) : bool :=
  starts_with p s
  || match s with
     | EmptyString => false
     | String _ s' => occurs p s'
     end.

(** A text that mentions no placeholder at all. *)
Fixpoint dollar_free (s : string) : bool :=
  match s with
  | EmptyString => true
  | String c s' => negb (Ascii.eqb c "$") && dollar_free s'
  end.

(** A text at whose head no parameter name can continue. *)
Definition stops (s : string) : bool :=
  match s with
  | EmptyString => true
  | String c _ => negb (is_ident c)
  end.

(** What the collaborators are relied on for: index names and return
    projections mention no placeholder, and a filter constructor binds
    exactly the placeholders that its fragments mention. *)
Class Contract (C : Collaborators) : Prop := {
  entity_index_plain : dollar_free NEO4J_ENTITY_VECTOR_INDEX = true;
  community_index_plain : dollar_free NEO4J_COMMUNITY_VECTOR_INDEX = true;
  edge_index_plain : dollar_free NEO4J_EDGE_VECTOR_INDEX = true;
  node_return_plain : dollar_free (get_entity_node_return_query NEO4J) = true;
  community_return_plain : dollar_free COMMUNITY_NODE_RETURN = true;
  edge_return_plain : dollar_free (get_entity_edge_return_query NEO4J) = true;
  node_filter_bound : forall f,
    fragment_placeholders (node_search_filter_query_constructor f NEO4J).1
    = dom (node_search_filter_query_constructor f NEO4J).2;
  edge_filter_bound : forall f,
    fragment_placeholders (edge_search_filter_query_constructor f NEO4J).1
    = dom (edge_search_filter_query_constructor f NEO4J).2
}.

(** The names that the execution layer binds. *)
Definition external_names : gset string :=
  {[ "search_vector"; "limit"; "min_score" ]}.

(** ** The shared skeleton of the three assemblers *)

(** The post-filter clause built from the accumulated fragments. *)
Definition post_clause (filter_queries : list string) : string :=
  " WHERE " +:+ join " AND " (filter_queries ++ ["score > $min_score"]).


(** The index-scope clause and its binding. *)
Definition index_scope (v : string) (search_group_id : option string)
  : string * gmap string value :=
  match search_group_id with
  | Some g => (" WHERE " +:+ v +:+ ".group_id = $group_id",
               <["group_id" := VStr g]> (∅ : gmap string value))
  | None => ("", ∅)
  end.

(** The membership predicate on the post-filter side. *)
Definition with_membership (v : string) (post_group_ids : option (list string))
    (r : list string * gmap string value) : list string * gmap string value :=
  match post_group_ids with
  | Some ids => (r.1 ++ [v +:+ ".group_id IN $group_ids"],
                 <["group_ids" := str_list ids]> r.2)
  | None => r
  end.

(** One endpoint predicate of the edge assembler. *)
Definition with_endpoint (v name : string) (uuid : option string)
    (r : list string * gmap string value) : list string * gmap string value :=
  match uuid with
  | Some u => (r.1 ++ [v +:+ ".uuid = $" +:+ name], <[name := VStr u]> r.2)
  | None => r
  end.

(** The endpoint predicates, behind their gate on [group_ids]. *)
Definition with_endpoints (group_ids : option (list string))
    (source_node_uuid target_node_uuid : option string)
    (r : list string * gmap string value) : list string * gmap string value :=
  match group_ids with
  | Some _ =>
      with_endpoint "m" "target_uuid" target_node_uuid
        (with_endpoint "n" "source_uuid" source_node_uuid r)
  | None => r
  end.

(** The endpoint predicates that pass the gate, and their bindings. *)
Definition endpoint_fragments (group_ids : option (list string))
    (source_node_uuid target_node_uuid : option string) : list string :=
  match group_ids with
  | Some _ =>
      match source_node_uuid with Some _ => ["n.uuid = $source_uuid"] | None => [] end
      ++ match target_node_uuid with Some _ => ["m.uuid = $target_uuid"] | None => [] end
  | None => []
  end.

Definition bind_endpoints (group_ids : option (list string))
    (source_node_uuid target_node_uuid : option string)
    (m : gmap string value) : gmap string value :=
  match group_ids with
  | Some _ =>
      let m1 := match source_node_uuid with
                | Some u => <["source_uuid" := VStr u]> m
                | None => m
                end in
      match target_node_uuid with
      | Some u => <["target_uuid" := VStr u]> m1
      | None => m1
      end
  | None => m
  end.

(** The same two clauses, read off the [group_ids] argument. *)
Definition scope_clause (v : string) (group_ids : option (list string)) : string :=
  match group_ids with
  | Some [_] => " WHERE " +:+ v +:+ ".group_id = $group_id"
  | _ => ""
  end.

Definition membership_fragment (v : string) (group_ids : option (list string))
  : list string :=
  match group_ids with
  | None | Some [_] => []
  | Some _ => [v +:+ ".group_id IN $group_ids"]
  end.

(** The clauses of a query, in their order. *)
Definition clauses (pattern v idx search_where rematch post ret : string)
  : list string :=
  [ pattern;
    "SEARCH " +:+ v +:+ " IN (";
    "VECTOR INDEX " +:+ idx;
    "FOR $search_vector" +:+ search_where;
    "LIMIT $limit";
    ") SCORE AS score" +:+ rematch;
    post;
    "RETURN";
    ret;
    "ORDER BY score DESC";
    "LIMIT $limit" ].

(** The layout that the three templates share. *)
Definition skeleton (pattern v idx search_where rematch post ret : string)
  : string :=
  nl +:+ "        " +:+ pattern
  +:+ nl +:+ "        " +:+ "SEARCH " +:+ v +:+ " IN ("
  +:+ nl +:+ "            " +:+ "VECTOR INDEX " +:+ idx
  +:+ nl +:+ "            " +:+ "FOR $search_vector" +:+ search_where
  +:+ nl +:+ "            " +:+ "LIMIT $limit"
  +:+ nl +:+ "        " +:+ ") SCORE AS score" +:+ rematch
  +:+ nl +:+ "        " +:+ post
  +:+ nl +:+ "        " +:+ "RETURN"
  +:+ nl +:+ "        " +:+ ret
  +:+ nl +:+ "        " +:+ "ORDER BY score DESC"
  +:+ nl +:+ "        " +:+ "LIMIT $limit"
  +:+ nl +:+ "        ".

(** The re-match of the full relationship pattern, for edges. *)
Definition edge_rematch : string :=
  nl +:+ "        WITH e, score"
  +:+ nl +:+ "        MATCH (n:Entity)-[e:RELATES_TO]->(m:Entity)".

(** The given strings occur in the text one after the other. *)
Fixpoint in_order (cs : list string) (s : string) : Prop :=
  match cs with
  | [] => True
  | c :: cs' => exists a b, s = a +:+ c +:+ b /\ in_order cs' b
  end.

(** The names that this module binds itself. *)
Definition reserved_names : gset string :=
  {[ "group_id"; "group_ids"; "source_uuid"; "target_uuid" ]}.

(** The filter constructors bind none of the given names. *)
Definition keeps_clear (C : Collaborators) (names : gset string) : Prop :=
  forall (f : SearchFilters) (k : string), k ∈ names ->
    (node_search_filter_query_constructor f NEO4J).2 !! k = None /\
    (edge_search_filter_query_constructor f NEO4J).2 !! k = None.

(** The text as the bytes that reach the driver. *)
Definition text_bytes (s : string) : list Byte.byte := list_byte_of_string s.

(** ** The mapping, read off the arguments *)

(** What the scope adds to a mapping [m] that is merged last. *)
Definition scope_bindings (group_ids : option (list string))
    (m : gmap string value) : gmap string value :=
  match group_ids with
  | None => m
  | Some [g] => m ∪ {[ "group_id" := VStr g ]}
  | Some ids => <["group_ids" := str_list ids]> m
  end.

Definition scope_keys (group_ids : option (list string)) : gset string :=
  match group_ids with
  | None => ∅
  | Some [_] => {[ "group_id" ]}
  | Some _ => {[ "group_ids" ]}
  end.

Definition endpoint_keys (group_ids : option (list string))
    (source_node_uuid target_node_uuid : option string) : gset string :=
  match group_ids with
  | Some _ =>
      match source_node_uuid with Some _ => {[ "source_uuid" ]} | None => ∅ end
      ∪ match target_node_uuid with Some _ => {[ "target_uuid" ]} | None => ∅ end
  | None => ∅
  end.

Definition scope_placeholders (group_ids : option (list string)) : list string :=
  match group_ids with
  | Some [_] => ["group_id"]
  | _ => []
  end.

Definition membership_placeholders (group_ids : option (list string))
  : list string :=
  match group_ids with
  | None | Some [_] => []
  | Some _ => ["group_ids"]
  end.

Definition endpoint_placeholders (group_ids : option (list string))
    (source_node_uuid target_node_uuid : option string) : list string :=
  match group_ids with
  | Some _ =>
      match source_node_uuid with Some _ => ["source_uuid"] | None => [] end
      ++ match target_node_uuid with Some _ => ["target_uuid"] | None => [] end
  | None => []
  end.

(** The arguments with every identifier blanked out. *)
Definition redact (group_ids : option (list string)) : option (list string) :=
  match group_ids with
  | Some ids => Some (map (fun _ => EmptyString) ids)
  | None => None
  end.

Definition redact_uuid (uuid : option string) : option string :=
  match uuid with
  | Some _ => Some EmptyString
  | None => None
  end.

(** ** A stand-in environment

    Used to evaluate the assemblers on examples: a filter is an optional
    list of uuids, turned into one membership predicate. *)
Definition sample_filter_constructor (v : string) (f : option (list string))
  : list string * gmap string value :=
  match f with
  | Some us => ([v +:+ ".uuid IN $uuids"],
                <["uuids" := str_list us]> (∅ : gmap string value))
  | None => ([], ∅)
  end.

Definition sample_env : Collaborators := {|
  SearchFilters := option (list string);
  GraphProvider := unit;
  NEO4J := tt;
  NEO4J_COMMUNITY_VECTOR_INDEX := "community_name_embedding";
  NEO4J_EDGE_VECTOR_INDEX := "edge_fact_embedding";
  NEO4J_ENTITY_VECTOR_INDEX := "entity_name_embedding";
  get_entity_edge_return_query := fun _ => "e.uuid AS uuid, e.fact AS fact";
  COMMUNITY_NODE_RETURN := "c.uuid AS uuid, c.name AS name";
  get_entity_node_return_query := fun _ => "n.uuid AS uuid, n.name AS name";
  edge_search_filter_query_constructor := fun f _ => sample_filter_constructor "e" f;
  node_search_filter_query_constructor := fun f _ => sample_filter_constructor "n" f
|}.

(** ** The assemblers on the objects of the filter constructors

    The filter constructors return a list object and a dict object; the
    node and edge assemblers append to that list and assign into that dict
    where they are. Here the two objects live in a store, and the
    constructors are calls that hand out references into it. *)

Module InPlace.

Definition ref := positive.

Record store := {
  lists : gmap ref (list string);
  dicts : gmap ref (gmap string value)
}.

Definition H (A : Type) : Type := store -> A * store.

#[export] Instance H_ret : MRet H := fun A a s => (a, s).

#[export] Instance H_bind : MBind H :=
  fun A B k m s => let '(a, s') := m s in k a s'.

(** [l.append(x)] *)
Definition list_append (l : ref) (x : string) : H unit :=
  fun s => (tt, {| lists := alter (fun xs => xs ++ [x]) l (lists s);
                   dicts := dicts s |}).

(** [d[k] = v] *)
Definition dict_setitem (d : ref) (k : string) (v : value) : H unit :=
  fun s => (tt, {| lists := lists s;
                   dicts := alter (insert k v) d (dicts s) |}).

(** The items of a list, as read when it is tested and joined. *)
Definition list_items (l : ref) : H (list string) :=
  fun s => (default [] (lists s !! l), s).

(** The items of a dict, as read when it is unpacked into a new one. *)
Definition dict_items (d : ref) : H (gmap string value) :=
  fun s => (default ∅ (dicts s !! d), s).

(** The filter constructors as calls that return their two objects. *)
Class Calls (C : Collaborators) := {
  node_search_filter_query_constructor_call :
    SearchFilters -> GraphProvider -> H (ref * ref);
  edge_search_filter_query_constructor_call :
    SearchFilters -> GraphProvider -> H (ref * ref)
}.

Section Assemblers.
Context `{C : Collaborators} {K : Calls C}.

Definition build_node_vector_search_query_in_place
    (search_filter : SearchFilters) (group_ids : option (list string))
  : H (string * gmap string value) :=
  let '(search_group_id, post_group_ids) := split_group_ids group_ids in
  '(filter_queries, filter_params) ←
    node_search_filter_query_constructor_call search_filter NEO4J;
  match post_group_ids with
  | Some ids =>
      list_append filter_queries "n.group_id IN $group_ids";;
      dict_setitem filter_params "group_ids" (str_list ids)
  | None => mret tt
  end;;
  filter_queries ← list_items filter_queries;
  let filter_query :=
    if nonempty_list filter_queries
    then " WHERE " +:+ join " AND " filter_queries
    else "" in
  let score_filter :=
    if nonempty_str filter_query
    then filter_query +:+ " AND score > $min_score"
    else " WHERE score > $min_score" in
  let '(search_where, search_params) :=
    match search_group_id with
    | Some g => (" WHERE n.group_id = $group_id",
                 <["group_id" := VStr g]> (∅ : gmap string value))
    | None => ("", ∅)
    end in
  let query :=
    (nl +:+ "        MATCH (n:Entity)"
     +:+ nl +:+ "        SEARCH n IN ("
     +:+ nl +:+ "            VECTOR INDEX ")
    +:+ NEO4J_ENTITY_VECTOR_INDEX
    +:+ (nl +:+ "            FOR $search_vector")
    +:+ search_where
    +:+ (nl +:+ "            LIMIT $limit"
         +:+ nl +:+ "        ) SCORE AS score"
         +:+ nl +:+ "        ")
    +:+ score_filter
    +:+ (nl +:+ "        RETURN"
         +:+ nl +:+ "        ")
    +:+ get_entity_node_return_query NEO4J
    +:+ (nl +:+ "        ORDER BY score DESC"
         +:+ nl +:+ "        LIMIT $limit"
         +:+ nl +:+ "        ") in
  filter_params ← dict_items filter_params;
  let params := filter_params ∪ search_params in
  mret (query, params).

(** The community assembler builds only objects of its own. *)
Definition build_community_vector_search_query_in_place
    (group_ids : option (list string)) : H (string * gmap string value) :=
  mret (build_community_vector_search_query group_ids).

Definition build_edge_vector_search_query_in_place
    (search_filter : SearchFilters) (group_ids : option (list string))
    (source_node_uuid target_node_uuid : option string)
  : H (string * gmap string value) :=
  let '(search_group_id, post_group_ids) := split_group_ids group_ids in
  '(filter_queries, filter_params) ←
    edge_search_filter_query_constructor_call search_filter NEO4J;
  match post_group_ids with
  | Some ids =>
      list_append filter_queries "e.group_id IN $group_ids";;
      dict_setitem filter_params "group_ids" (str_list ids)
  | None => mret tt
  end;;
  match group_ids with
  | Some _ =>
      match source_node_uuid with
      | Some u =>
          dict_setitem filter_params "source_uuid" (VStr u);;
          list_append filter_queries "n.uuid = $source_uuid"
      | None => mret tt
      end;;
      match target_node_uuid with
      | Some u =>
          dict_setitem filter_params "target_uuid" (VStr u);;
          list_append filter_queries "m.uuid = $target_uuid"
      | None => mret tt
      end
  | None => mret tt
  end;;
  filter_queries ← list_items filter_queries;
  let filter_query :=
    if nonempty_list filter_queries
    then " WHERE " +:+ join " AND " filter_queries
    else "" in
  let score_filter :=
    if nonempty_str filter_query
    then filter_query +:+ " AND score > $min_score"
    else " WHERE score > $min_score" in
  let '(search_where, search_params) :=
    match search_group_id with
    | Some g => (" WHERE e.group_id = $group_id",
                 <["group_id" := VStr g]> (∅ : gmap string value))
    | None => ("", ∅)
    end in
  let query :=
    (nl +:+ "        MATCH ()-[e:RELATES_TO]-()"
     +:+ nl +:+ "        SEARCH e IN ("
     +:+ nl +:+ "            VECTOR INDEX ")
    +:+ NEO4J_EDGE_VECTOR_INDEX
    +:+ (nl +:+ "            FOR $search_vector")
    +:+ search_where
    +:+ (nl +:+ "            LIMIT $limit"
         +:+ nl +:+ "        ) SCORE AS score"
         +:+ nl +:+ "        WITH e, score"
         +:+ nl +:+ "        MATCH (n:Entity)-[e:RELATES_TO]->(m:Entity)"
         +:+ nl +:+ "        ")
    +:+ score_filter
    +:+ (nl +:+ "        RETURN"
         +:+ nl +:+ "        ")
    +:+ get_entity_edge_return_query NEO4J
    +:+ (nl +:+ "        ORDER BY score DESC"
         +:+ nl +:+ "        LIMIT $limit"
         +:+ nl +:+ "        ") in
  filter_params ← dict_items filter_params;
  let params := filter_params ∪ search_params in
  mret (query, params).

(** At each call the constructors hand out a list and a dict that hold
    the answer for the filter. *)
Definition hands_out_the_answer : Prop :=
  forall (f : SearchFilters) (s : store),
    (let r := node_search_filter_query_constructor_call f NEO4J s in
     lists r.2 !! r.1.1 = Some (node_search_filter_query_constructor f NEO4J).1 /\
     dicts r.2 !! r.1.2 = Some (node_search_filter_query_constructor f NEO4J).2) /\
    (let r := edge_search_filter_query_constructor_call f NEO4J s in
     lists r.2 !! r.1.1 = Some (edge_search_filter_query_constructor f NEO4J).1 /\
     dicts r.2 !! r.1.2 = Some (edge_search_filter_query_constructor f NEO4J).2).

End Assemblers.

(** Constructors that build a new list and a new dict at every call. *)
Definition building (C : Collaborators) : Calls C := {|
  node_search_filter_query_constructor_call := fun f p s =>
    let l := fresh (dom (lists s)) in
    let d := fresh (dom (dicts s)) in
    ((l, d),
     {| lists := <[l := (node_search_filter_query_constructor f p).1]> (lists s);
        dicts := <[d := (node_search_filter_query_constructor f p).2]> (dicts s) |});
  edge_search_filter_query_constructor_call := fun f p s =>
    let l := fresh (dom (lists s)) in
    let d := fresh (dom (dicts s)) in
    ((l, d),
     {| lists := <[l := (edge_search_filter_query_constructor f p).1]> (lists s);
        dicts := <[d := (edge_search_filter_query_constructor f p).2]> (dicts s) |})
|}.

(** Constructors that keep one list and one dict and return them at every
    call, as a memoised function does; the same arguments always get the
    same two objects back. *)
Definition memoised (C : Collaborators) : Calls C := {|
  node_search_filter_query_constructor_call := fun _ _ s =>
    ((1%positive, 1%positive), s);
  edge_search_filter_query_constructor_call := fun _ _ s =>
    ((2%positive, 2%positive), s)
|}.

(** The store of [memoised] before the first call, for a filter whose
    answer is empty. *)
Definition memo_store : store :=
  {| lists := {[ 1%positive := []; 2%positive := [] ]};
     dicts := {[ 1%positive := ∅; 2%positive := ∅ ]} |}.

End InPlace.

(** * Properties *)

Example sample_placeholders :
  placeholders "a = $x AND b IN $y_1) $ $z" = ["x"; "y_1"; "z"].
Proof. reflexivity. Qed.

Example sample_node_params :
  (@build_node_vector_search_query sample_env None (Some ["tenantA"])).2
  = {[ "group_id" := VStr "tenantA" ]}.
Proof. vm_compute. reflexivity. Qed.

Example sample_two_tenants :
  @build_node_vector_search_query sample_env None (Some ["tenantA"; "tenantB"])
  = (skeleton "MATCH (n:Entity)" "n" "entity_name_embedding" "" ""
       " WHERE n.group_id IN $group_ids AND score > $min_score"
       "n.uuid AS uuid, n.name AS name",
     {[ "group_ids" := VList [VStr "tenantA"; VStr "tenantB"] ]}).
Proof. vm_compute. reflexivity. Qed.

Example sample_edge_post_filter :
  occurs " WHERE e.uuid IN $uuids AND e.group_id IN $group_ids AND n.uuid = $source_uuid AND score > $min_score"
    (@build_edge_vector_search_query sample_env (Some ["u1"]) (Some ["a"; "b"])
       (Some "x") None).1 = true.
Proof. vm_compute. reflexivity. Qed.

Lemma sample_contract : Contract sample_env.
Proof.
  split; try reflexivity; intros [us|]; cbn; unfold fragment_placeholders;
    cbn; rewrite ?dom_insert_L, ?dom_empty_L; set_solver.
Qed.

Lemma sample_keeps_clear (names : gset string) :
  "uuids" ∉ names -> keeps_clear sample_env names.
Proof.
  intros Hnot [us|] k Hk; cbn; rewrite ?lookup_empty; [|done].
  rewrite !lookup_insert_ne by (intros <-; contradiction). done.
Qed.

(** ** The tracker *)

Module TrackerFacts.
Import Tracker.

Lemma attr_names_differ : _VECTOR_SEARCH_FALLBACK_LOGGED_ATTR <> _VECTOR_SEARCH_MODE_ATTR.
Proof. discriminate. Qed.

Lemma first_held_insert_other_name (a : gmap (target * string) value)
    (t : target) (n n' : string) (v : value) (cs : list target) :
  n <> n' -> first_held (<[(t, n) := v]> a) n' cs = first_held a n' cs.
Proof.
  intros Hn. induction cs as [|c cs IH]; [reflexivity|].
  cbn [first_held]. rewrite lookup_insert_ne by congruence. rewrite IH.
  reflexivity.
Qed.

Lemma first_held_agree (a a' : gmap (target * string) value) (t : target)
    (n : string) (cs : list target) :
  (forall t' name, t' <> t -> a' !! (t', name) = a !! (t', name)) ->
  t ∉ cs -> first_held a' n cs = first_held a n cs.
Proof.
  intros Hagree. induction cs as [|c cs IH]; intros Hout; [reflexivity|].
  apply not_elem_of_cons in Hout as [Hc Hout].
  cbn [first_held]. rewrite Hagree by congruence. rewrite (IH Hout).
  reflexivity.
Qed.

Section Reads.
Context `{OM : ObjectModel}.

Lemma read_insert_here (a : gmap (target * string) value) (t : target)
    (n : string) (v : value) :
  read (<[(t, n) := v]> a) t n = Some v.
Proof. unfold read. rewrite lookup_insert_eq. reflexivity. Qed.

Lemma read_insert_other_name (a : gmap (target * string) value)
    (t t' : target) (n n' : string) (v : value) :
  n <> n' -> read (<[(t, n) := v]> a) t' n' = read a t' n'.
Proof.
  intros Hn. unfold read. rewrite lookup_insert_ne by congruence.
  rewrite first_held_insert_other_name by exact Hn. reflexivity.
Qed.

(** A read of [t'] looks at [t'] and at its classes only. *)
Lemma read_agree (a a' : gmap (target * string) value) (t t' : target)
    (n : string) :
  (forall t'' name, t'' <> t -> a' !! (t'', name) = a !! (t'', name)) ->
  t <> t' -> t ∉ bases t' -> read a' t' n = read a t' n.
Proof.
  intros Hagree Hne Hout. unfold read.
  rewrite Hagree by congruence.
  rewrite (first_held_agree a a' t n (bases t') Hagree Hout). reflexivity.
Qed.

Lemma should_use_reads_only (t : target) (w : world) :
  (should_use_search_index t w).2 = w.
Proof. reflexivity. Qed.

Lemma should_use_value (t : target) (w : world) :
  (should_use_search_index t w).1
  = Returned
      (ne_str (default (VStr "search")
                 (read (attrs w) t _VECTOR_SEARCH_MODE_ATTR)) "fallback").
Proof. reflexivity. Qed.

(** The net effect of one mark on a target that takes both attributes. *)
Lemma mark_unfold (t : target) (exc : Exception) (w : world) :
  accepts t ->
  mark_search_index_fallback t exc w
  = (Returned tt,
     {| attrs :=
          <[(t, _VECTOR_SEARCH_MODE_ATTR) := VStr "fallback"]>
            (if warned t w then attrs w
             else <[(t, _VECTOR_SEARCH_FALLBACK_LOGGED_ATTR) := VBool true]>
                    (attrs w));
        logged :=
          logged w ++ (if warned t w then [] else [fallback_warning exc]) |}).
Proof.
  intros [Hmode Hflag].
  unfold mark_search_index_fallback, mbind, M_bind, getattr, when, setattr,
    logger_warning, mret, M_ret.
  fold (warned t w). rewrite Hmode, Hflag. destruct w as [a l].
  destruct (warned t _); cbn; [rewrite app_nil_r|]; reflexivity.
Qed.

(** One mark on a target that refuses the flag and is not yet warned: the
    warning is logged, the assignment raises, nothing is stored. *)
Lemma mark_refused (t : target) (exc : Exception) (w : world) :
  settable t _VECTOR_SEARCH_FALLBACK_LOGGED_ATTR = false ->
  warned t w = false ->
  mark_search_index_fallback t exc w
  = (Raised (AttributeError t _VECTOR_SEARCH_FALLBACK_LOGGED_ATTR),
     {| attrs := attrs w; logged := logged w ++ [fallback_warning exc] |}).
Proof.
  intros Hflag Hwarned.
  unfold mark_search_index_fallback, mbind, M_bind, getattr, when, setattr,
    logger_warning, mret, M_ret.
  fold (warned t w). rewrite Hwarned, Hflag. reflexivity.
Qed.

(** Whatever a mark does, it stores on its own target only. *)
Lemma mark_stores_on_target (t t' : target) (name : string) (exc : Exception)
    (w : world) :
  t' <> t ->
  attrs (mark_search_index_fallback t exc w).2 !! (t', name)
  = attrs w !! (t', name).
Proof.
  intros Hne.
  unfold mark_search_index_fallback, mbind, M_bind, getattr, when, setattr,
    logger_warning, mret, M_ret.
  fold (warned t w).
  destruct (warned t w), (settable t _VECTOR_SEARCH_FALLBACK_LOGGED_ATTR),
    (settable t _VECTOR_SEARCH_MODE_ATTR); cbn;
    rewrite ?lookup_insert_ne by congruence; reflexivity.
Qed.

Lemma mark_frame (t t' : target) (name : string) (exc : Exception) (w : world) :
  t <> t' -> t ∉ bases t' ->
  read (attrs (mark_search_index_fallback t exc w).2) t' name
  = read (attrs w) t' name.
Proof.
  intros Hne Hout. apply (read_agree _ _ t); [|exact Hne|exact Hout].
  intros t'' n Ht''. apply mark_stores_on_target, Ht''.
Qed.

Lemma mark_sets_mode (t : target) (exc : Exception) (w : world) :
  accepts t ->
  attrs (mark_search_index_fallback t exc w).2 !! (t, _VECTOR_SEARCH_MODE_ATTR)
  = Some (VStr "fallback").
Proof. intros Hacc. rewrite mark_unfold by exact Hacc. apply lookup_insert_eq. Qed.

Lemma held_is_read (a : gmap (target * string) value) (t : target)
    (n : string) (v : value) :
  a !! (t, n) = Some v -> read a t n = Some v.
Proof. intros Hv. unfold read. rewrite Hv. reflexivity. Qed.

Lemma mark_sets_warned (t : target) (exc : Exception) (w : world) :
  accepts t -> warned t (mark_search_index_fallback t exc w).2 = true.
Proof.
  intros Hacc. rewrite mark_unfold by exact Hacc.
  unfold warned at 1. cbn [attrs snd].
  rewrite read_insert_other_name by apply not_eq_sym, attr_names_differ.
  destruct (warned t w) eqn:Hseen.
  - exact Hseen.
  - rewrite read_insert_here. reflexivity.
Qed.

Lemma mark_log (t : target) (exc : Exception) (w : world) :
  accepts t ->
  logged (mark_search_index_fallback t exc w).2
  = logged w ++ (if warned t w then [] else [fallback_warning exc]).
Proof. intros Hacc. rewrite mark_unfold by exact Hacc. reflexivity. Qed.

Lemma mark_then_no_index (t : target) (exc : Exception) (w : world) :
  accepts t ->
  (should_use_search_index t (mark_search_index_fallback t exc w).2).1
  = Returned false.
Proof.
  intros Hacc. rewrite should_use_value.
  rewrite (held_is_read _ _ _ _ (mark_sets_mode t exc w Hacc)). reflexivity.
Qed.

Lemma fresh_not_warned (t : target) (w : world) : fresh t w -> warned t w = false.
Proof. intros [_ Hw]. unfold warned. rewrite Hw. reflexivity. Qed.

Lemma mark_each_cons (t : target) (exc : Exception) (rest : list Exception)
    (w : world) :
  accepts t ->
  mark_each t (exc :: rest) w
  = mark_each t rest (mark_search_index_fallback t exc w).2.
Proof.
  intros Hacc. cbn [mark_each]. unfold mbind, M_bind.
  rewrite mark_unfold by exact Hacc. reflexivity.
Qed.

(** Degradation is sticky: once warned, any further run of marks is silent
    and leaves the target degraded. *)
Lemma mark_each_warned (t : target) (excs : list Exception) (w : world) :
  accepts t -> warned t w = true ->
  logged (mark_each t excs w).2 = logged w /\
  warned t (mark_each t excs w).2 = true.
Proof.
  intros Hacc. revert w. induction excs as [|exc rest IH]; intros w Hw.
  - split; [reflexivity | exact Hw].
  - rewrite mark_each_cons by exact Hacc.
    destruct (IH (mark_search_index_fallback t exc w).2) as [Hlog Hwarn].
    { apply mark_sets_warned, Hacc. }
    split; [| exact Hwarn].
    rewrite Hlog, mark_log, Hw by exact Hacc. apply app_nil_r.
Qed.

Lemma mark_each_keeps_mode (t : target) (excs : list Exception) (w : world) :
  accepts t ->
  attrs w !! (t, _VECTOR_SEARCH_MODE_ATTR) = Some (VStr "fallback") ->
  attrs (mark_each t excs w).2 !! (t, _VECTOR_SEARCH_MODE_ATTR)
  = Some (VStr "fallback").
Proof.
  intros Hacc. revert w. induction excs as [|exc rest IH]; intros w Hw;
    [exact Hw|].
  rewrite mark_each_cons by exact Hacc. apply IH, mark_sets_mode, Hacc.
Qed.

(** X4. On a target that takes the tracker's attributes and is fresh, any
    non-empty run of marks logs the first cause, once, and switches the
    index off. *)
Lemma mark_each_fresh (t : target) (exc : Exception) (rest : list Exception)
    (w : world) :
  accepts t -> fresh t w ->
  logged (mark_each t (exc :: rest) w).2 = logged w ++ [fallback_warning exc] /\
  (should_use_search_index t (mark_each t (exc :: rest) w).2).1
  = Returned false.
Proof.
  intros Hacc Hfresh. rewrite mark_each_cons by exact Hacc.
  destruct (mark_each_warned t rest (mark_search_index_fallback t exc w).2)
    as [Hlog _]; [exact Hacc | apply mark_sets_warned, Hacc |].
  split.
  - rewrite Hlog, mark_log, (fresh_not_warned _ _ Hfresh) by exact Hacc.
    reflexivity.
  - rewrite should_use_value.
    rewrite (held_is_read _ _ _ (VStr "fallback")); [reflexivity|].
    apply mark_each_keeps_mode, mark_sets_mode; exact Hacc.
Qed.

(** C5, as the code has it. On a fresh target that takes the tracker's
    attributes, the index is used before any mark and not after the first
    or the second mark; both marks return; the first logs exactly one
    warning, carrying its cause, the second logs nothing, and the target
    is in fallback mode after each. *)
Theorem mark_twice_on_fresh_target
    (t : target) (exc1 exc2 : Exception) (w : world)
    (Haccepts : accepts t) (Hfresh : fresh t w) :
  let r1 := mark_search_index_fallback t exc1 w in
  let r2 := mark_search_index_fallback t exc2 r1.2 in
  (should_use_search_index t w).1 = Returned true /\
  (r1.1 = Returned tt /\ r2.1 = Returned tt) /\
  (should_use_search_index t r1.2).1 = Returned false /\
  (should_use_search_index t r2.2).1 = Returned false /\
  logged r1.2 = logged w ++ [fallback_warning exc1] /\
  logged r2.2 = logged w ++ [fallback_warning exc1] /\
  attrs r1.2 !! (t, _VECTOR_SEARCH_MODE_ATTR) = Some (VStr "fallback") /\
  attrs r2.2 !! (t, _VECTOR_SEARCH_MODE_ATTR) = Some (VStr "fallback").
Proof.
  intros r1 r2.
  assert (Hlog1 : logged r1.2 = logged w ++ [fallback_warning exc1]).
  { unfold r1. rewrite mark_log, (fresh_not_warned _ _ Hfresh) by exact Haccepts.
    reflexivity. }
  split.
  { rewrite should_use_value. destruct Hfresh as [Hmode _]. rewrite Hmode.
    reflexivity. }
  split.
  { unfold r2, r1. rewrite !mark_unfold by exact Haccepts. split; reflexivity. }
  split; [apply mark_then_no_index, Haccepts|].
  split; [apply mark_then_no_index, Haccepts|].
  split; [exact Hlog1|].
  split.
  { unfold r2. rewrite mark_log by exact Haccepts. unfold r1 at 2.
    rewrite mark_sets_warned by exact Haccepts.
    rewrite app_nil_r. exact Hlog1. }
  split; apply mark_sets_mode, Haccepts.
Qed.

End Reads.

Lemma plain_objects_accept (t : target) : @accepts plain_objects t.
Proof. split; reflexivity. Qed.

Lemma mark_twice_on_fresh_target_witness :
  @accepts plain_objects 1%positive /\
  @fresh plain_objects 1%positive empty_world /\
  logged (@mark_search_index_fallback plain_objects 1%positive
            {| exc_str := "again" |}
            (@mark_search_index_fallback plain_objects 1%positive
               {| exc_str := "syntax" |} empty_world).2).2
  = [fallback_warning {| exc_str := "syntax" |}].
Proof.
  assert (Hacc : @accepts plain_objects 1%positive) by (split; reflexivity).
  assert (Hfresh : @fresh plain_objects 1%positive empty_world)
    by (split; reflexivity).
  split; [exact Hacc|]. split; [exact Hfresh|].
  exact (proj1 (proj2 (proj2 (proj2 (proj2 (proj2
    (@mark_twice_on_fresh_target plain_objects 1%positive
       {| exc_str := "syntax" |} {| exc_str := "again" |} empty_world
       Hacc Hfresh))))))).
Defined.

(** C5 as stated fails on a fresh target that takes no new attribute:
    each mark logs its warning and raises before the mode is stored, so
    two marks leave two warnings and the index is still used. *)
Lemma mark_twice_on_sealed_target :
  let r1 := @mark_search_index_fallback sealed_objects 1%positive
              {| exc_str := "syntax" |} empty_world in
  let r2 := @mark_search_index_fallback sealed_objects 1%positive
              {| exc_str := "again" |} r1.2 in
  @fresh sealed_objects 1%positive empty_world /\
  r1.1 = Raised (AttributeError 1%positive _VECTOR_SEARCH_FALLBACK_LOGGED_ATTR) /\
  r2.1 = Raised (AttributeError 1%positive _VECTOR_SEARCH_FALLBACK_LOGGED_ATTR) /\
  logged r2.2 = [ fallback_warning {| exc_str := "syntax" |};
                  fallback_warning {| exc_str := "again" |} ] /\
  (@should_use_search_index sealed_objects 1%positive r2.2).1 = Returned true.
Proof. repeat split. Qed.

End TrackerFacts.

(** ** Strings *)

Lemma append_cons (x : ascii) (a b : string) :
  String x a +:+ b = String x (a +:+ b).
Proof. reflexivity. Qed.

Lemma append_empty_l (b : string) : "" +:+ b = b.
Proof. reflexivity. Qed.

Lemma append_assoc (a b c : string) : (a +:+ b) +:+ c = a +:+ b +:+ c.
Proof.
  induction a as [|x a IH]; [reflexivity|].
  rewrite !append_cons. f_equal. exact IH.
Qed.

Lemma append_empty_r (a : string) : a +:+ "" = a.
Proof.
  induction a as [|x a IH]; [reflexivity|].
  rewrite append_cons. f_equal. exact IH.
Qed.

Lemma length_append (a b : string) :
  String.length (a +:+ b) = String.length a + String.length b.
Proof.
  induction a as [|x a IH]; [reflexivity|].
  rewrite append_cons. cbn [String.length]. rewrite IH. reflexivity.
Qed.

Lemma join_cons_cons (sep x y : string) (l : list string) :
  join sep (x :: y :: l) = x +:+ sep +:+ join sep (y :: l).
Proof. reflexivity. Qed.

Lemma join_snoc (sep x y : string) (l : list string) :
  join sep ((x :: l) ++ [y]) = join sep (x :: l) +:+ sep +:+ y.
Proof.
  revert x. induction l as [|z l IH]; intros x; [reflexivity|].
  change (join sep (x :: z :: l ++ [y]) = join sep (x :: z :: l) +:+ sep +:+ y).
  rewrite !join_cons_cons, !append_assoc. do 2 f_equal. apply IH.
Qed.

(** The two-step construction of the score filter is one join. *)
Lemma score_filter_eq (filter_queries : list string) :
  (if nonempty_str
        (if nonempty_list filter_queries
         then " WHERE " +:+ join " AND " filter_queries else "")
   then (if nonempty_list filter_queries
         then " WHERE " +:+ join " AND " filter_queries else "")
        +:+ " AND score > $min_score"
   else " WHERE score > $min_score")
  = post_clause filter_queries.
Proof.
  unfold post_clause. destruct filter_queries as [|x l]; [reflexivity|].
  rewrite join_snoc. cbn [nonempty_list]. rewrite append_assoc. reflexivity.
Qed.

Lemma starts_with_append (p b : string) : starts_with p (p +:+ b) = true.
Proof.
  induction p as [|x p IH]; [reflexivity|].
  rewrite append_cons. cbn [starts_with]. rewrite IH, Ascii.eqb_refl. reflexivity.
Qed.

Lemma starts_with_inv (p s : string) :
  starts_with p s = true -> exists b, s = p +:+ b.
Proof.
  revert s. induction p as [|x p IH]; intros s Hs; [exists s; reflexivity|].
  destruct s as [|y s]; [discriminate|]. simpl in Hs.
  apply andb_prop in Hs as [Hxy Hs]. apply Ascii.eqb_eq in Hxy as ->.
  destruct (IH s Hs) as [b ->]. exists b. reflexivity.
Qed.

(** [occurs] decides occurrence as a substring. *)
Lemma occurs_iff (p s : string) :
  occurs p s = true <-> exists a b, s = a +:+ p +:+ b.
Proof.
  split.
  - induction s as [|y s IH]; simpl; intros Hs.
    + rewrite orb_false_r in Hs. apply starts_with_inv in Hs as [b Hb].
      exists "", b. exact Hb.
    + apply orb_prop in Hs as [Hs|Hs].
      * apply starts_with_inv in Hs as [b Hb]. exists "", b. exact Hb.
      * destruct (IH Hs) as (a & b & ->). exists (String y a), b. reflexivity.
  - intros (a & b & ->). induction a as [|y a IH].
    + rewrite append_empty_l.
      assert (Hhead : forall q, starts_with p q = true -> occurs p q = true).
      { intros [|z q] Hq; cbn [occurs]; rewrite Hq; reflexivity. }
      apply Hhead, starts_with_append.
    + rewrite append_cons. cbn [occurs]. rewrite IH. apply orb_true_r.
Qed.

(** ** Placeholders of concatenated text *)

Lemma stops_append (a b : string) :
  stops a = true -> stops b = true -> stops (a +:+ b) = true.
Proof. destruct a as [|x a]; intros Ha Hb; [exact Hb | exact Ha]. Qed.

Lemma take_ident_stop (a b : string) :
  stops b = true -> take_ident (a +:+ b) = take_ident a.
Proof.
  intros Hb. induction a as [|x a IH].
  - rewrite append_empty_l. destruct b as [|y b]; [reflexivity|].
    cbn [stops] in Hb. apply negb_true_iff in Hb. cbn [take_ident].
    rewrite Hb. reflexivity.
  - rewrite append_cons. cbn [take_ident]. rewrite IH. reflexivity.
Qed.

(** Text that follows a name boundary adds its own placeholders. *)
Lemma placeholders_append (a b : string) :
  stops b = true -> placeholders (a +:+ b) = placeholders a ++ placeholders b.
Proof.
  intros Hb. induction a as [|x a IH]; [reflexivity|].
  rewrite append_cons. cbn [placeholders].
  rewrite (take_ident_stop a b Hb), IH, app_assoc. reflexivity.
Qed.

(** Text without a dollar sign adds none, whatever follows. *)
Lemma placeholders_plain (a b : string) :
  dollar_free a = true -> placeholders (a +:+ b) = placeholders b.
Proof.
  induction a as [|x a IH]; intros Ha; [reflexivity|].
  cbn [dollar_free] in Ha. apply andb_prop in Ha as [Hx Ha].
  apply negb_true_iff in Hx.
  rewrite append_cons. cbn [placeholders]. rewrite Hx. apply IH, Ha.
Qed.

Lemma placeholders_plain_end (a : string) :
  dollar_free a = true -> placeholders a = [].
Proof.
  intros Ha. rewrite <- (append_empty_r a). apply (placeholders_plain a "" Ha).
Qed.

Lemma dollar_free_append (a b : string) :
  dollar_free a = true -> dollar_free b = true -> dollar_free (a +:+ b) = true.
Proof.
  intros Ha Hb. induction a as [|x a IH]; [exact Hb|].
  cbn [dollar_free] in Ha. apply andb_prop in Ha as [Hx Ha].
  rewrite append_cons. cbn [dollar_free]. rewrite Hx, (IH Ha). reflexivity.
Qed.

(** Fragments joined by [" AND "] keep their placeholders apart. *)
Lemma placeholders_join (l : list string) (rest : string) :
  stops rest = true ->
  placeholders (join " AND " l +:+ rest)
  = mjoin (placeholders <$> l) ++ placeholders rest.
Proof.
  intros Hrest. induction l as [|x l IH]; [reflexivity|].
  destruct l as [|y l].
  - change (join " AND " [x]) with x. cbn [fmap list_fmap mjoin list_join].
    rewrite app_nil_r. apply placeholders_append, Hrest.
  - rewrite join_cons_cons, !append_assoc.
    rewrite placeholders_append by reflexivity.
    rewrite placeholders_plain by reflexivity.
    rewrite IH. change (placeholders <$> x :: y :: l)
      with (placeholders x :: (placeholders <$> y :: l)).
    cbn [mjoin list_join]. rewrite app_assoc. reflexivity.
Qed.

Lemma placeholders_post_clause (fqs : list string) (rest : string) :
  stops rest = true ->
  placeholders (post_clause fqs +:+ rest)
  = mjoin (placeholders <$> fqs) ++ ["min_score"] ++ placeholders rest.
Proof.
  intros Hrest. unfold post_clause. rewrite append_assoc.
  rewrite placeholders_plain by reflexivity.
  rewrite placeholders_join by exact Hrest.
  rewrite fmap_app, join_app, <- app_assoc. do 2 f_equal.
Qed.

(** ** The assemblers follow the shared skeleton *)

Section Shape.
Context `{C : Collaborators}.

Lemma node_shape (f : SearchFilters) (group_ids : option (list string)) :
  build_node_vector_search_query f group_ids
  = (skeleton "MATCH (n:Entity)" "n" NEO4J_ENTITY_VECTOR_INDEX
       (index_scope "n" (split_group_ids group_ids).1).1 ""
       (post_clause
          (with_membership "n" (split_group_ids group_ids).2
             (node_search_filter_query_constructor f NEO4J)).1)
       (get_entity_node_return_query NEO4J),
     (with_membership "n" (split_group_ids group_ids).2
        (node_search_filter_query_constructor f NEO4J)).2
     ∪ (index_scope "n" (split_group_ids group_ids).1).2).
Proof.
  unfold build_node_vector_search_query.
  destruct (split_group_ids group_ids) as [sg pg].
  destruct (node_search_filter_query_constructor f NEO4J) as [fq fp].
  destruct pg as [ids|], sg as [g|]; cbv beta iota zeta;
    rewrite score_filter_eq; reflexivity.
Qed.

Lemma community_shape (group_ids : option (list string)) :
  build_community_vector_search_query group_ids
  = (skeleton "MATCH (c:Community)" "c" NEO4J_COMMUNITY_VECTOR_INDEX
       (index_scope "c" (split_group_ids group_ids).1).1 ""
       (post_clause
          (with_membership "c" (split_group_ids group_ids).2 ([], ∅)).1)
       COMMUNITY_NODE_RETURN,
     (with_membership "c" (split_group_ids group_ids).2 ([], ∅)).2
     ∪ (index_scope "c" (split_group_ids group_ids).1).2).
Proof.
  unfold build_community_vector_search_query.
  destruct (split_group_ids group_ids) as [sg pg].
  destruct pg as [ids|], sg as [g|]; reflexivity.
Qed.

Lemma edge_shape (f : SearchFilters) (group_ids : option (list string))
    (source_node_uuid target_node_uuid : option string) :
  build_edge_vector_search_query f group_ids source_node_uuid target_node_uuid
  = (skeleton "MATCH ()-[e:RELATES_TO]-()" "e" NEO4J_EDGE_VECTOR_INDEX
       (index_scope "e" (split_group_ids group_ids).1).1 edge_rematch
       (post_clause
          (with_endpoints group_ids source_node_uuid target_node_uuid
             (with_membership "e" (split_group_ids group_ids).2
                (edge_search_filter_query_constructor f NEO4J))).1)
       (get_entity_edge_return_query NEO4J),
     (with_endpoints group_ids source_node_uuid target_node_uuid
        (with_membership "e" (split_group_ids group_ids).2
           (edge_search_filter_query_constructor f NEO4J))).2
     ∪ (index_scope "e" (split_group_ids group_ids).1).2).
Proof.
  unfold build_edge_vector_search_query.
  destruct (split_group_ids group_ids) as [sg pg].
  destruct (edge_search_filter_query_constructor f NEO4J) as [fq fp].
  destruct pg as [ids|], sg as [g|], group_ids as [gs|],
    source_node_uuid as [u|], target_node_uuid as [v|]; cbv beta iota zeta;
    rewrite score_filter_eq; reflexivity.
Qed.

End Shape.

(** ** Placeholders of the skeleton *)

Ltac skip_plain :=
  repeat (rewrite placeholders_plain by (reflexivity || assumption)).

Lemma skeleton_placeholders (pattern v idx search_where rematch ret : string)
    (fqs : list string) :
  dollar_free pattern = true -> dollar_free v = true ->
  dollar_free idx = true -> stops search_where = true ->
  dollar_free rematch = true -> dollar_free ret = true ->
  placeholders (skeleton pattern v idx search_where rematch (post_clause fqs) ret)
  = ["search_vector"] ++ placeholders search_where ++ ["limit"]
    ++ mjoin (placeholders <$> fqs) ++ ["min_score"; "limit"].
Proof.
  intros Hpattern Hv Hidx Hwhere Hrematch Hret. unfold skeleton.
  skip_plain.
  rewrite (placeholders_append "FOR $search_vector")
    by (apply stops_append; [assumption | reflexivity]).
  rewrite (placeholders_append search_where) by reflexivity.
  skip_plain.
  rewrite (placeholders_append "LIMIT $limit") by reflexivity.
  skip_plain.
  rewrite placeholders_post_clause by reflexivity.
  skip_plain.
  rewrite (placeholders_append "LIMIT $limit") by reflexivity.
  skip_plain.
  rewrite (placeholders_plain_end "        ") by reflexivity.
  reflexivity.
Qed.

Lemma index_scope_stops (v : string) (sg : option string) :
  stops (index_scope v sg).1 = true.
Proof. destruct sg; reflexivity. Qed.

Lemma index_scope_placeholders (v : string) (sg : option string) :
  dollar_free v = true ->
  list_to_set (placeholders (index_scope v sg).1) = dom (index_scope v sg).2.
Proof.
  intros Hv. destruct sg as [g|]; cbn [index_scope fst snd].
  - skip_plain. rewrite dom_insert_L, dom_empty_L. reflexivity.
  - rewrite dom_empty_L. reflexivity.
Qed.

Lemma with_membership_placeholders (v : string) (pg : option (list string))
    (r : list string * gmap string value) :
  dollar_free v = true ->
  fragment_placeholders r.1 = dom r.2 ->
  fragment_placeholders (with_membership v pg r).1
  = dom (with_membership v pg r).2.
Proof.
  intros Hv Hr. destruct pg as [ids|]; [|exact Hr].
  cbn [with_membership fst snd]. unfold fragment_placeholders in *.
  rewrite fmap_app, join_app, list_to_set_app_L, Hr, dom_insert_L.
  cbn [fmap list_fmap mjoin list_join].
  rewrite (placeholders_plain v) by exact Hv.
  change (placeholders ".group_id IN $group_ids") with ["group_ids"].
  set_solver.
Qed.

Lemma with_endpoints_placeholders (group_ids : option (list string))
    (source_node_uuid target_node_uuid : option string)
    (r : list string * gmap string value) :
  fragment_placeholders r.1 = dom r.2 ->
  fragment_placeholders
    (with_endpoints group_ids source_node_uuid target_node_uuid r).1
  = dom (with_endpoints group_ids source_node_uuid target_node_uuid r).2.
Proof.
  intros Hr. unfold fragment_placeholders in *.
  destruct group_ids as [gs|], source_node_uuid as [u|],
    target_node_uuid as [w|]; cbn [with_endpoints with_endpoint fst snd];
    rewrite ?fmap_app, ?join_app, ?list_to_set_app_L, ?dom_insert_L, ?Hr;
    try change (mjoin (placeholders <$> ["n" +:+ ".uuid = $" +:+ "source_uuid"]))
          with ["source_uuid"];
    try change (mjoin (placeholders <$> ["m" +:+ ".uuid = $" +:+ "target_uuid"]))
          with ["target_uuid"];
    set_solver.
Qed.

(** ** The splitter *)

(** C1, as the code has it. One identifier goes to the index side; an
    absent sequence stays absent; an empty sequence is handed back as it
    is, and so is a sequence of two or more identifiers. *)
Theorem split_group_ids_cases :
  (forall g : string, split_group_ids (Some [g]) = (Some g, None)) /\
  split_group_ids None = (None, None) /\
  split_group_ids (Some []) = (None, Some []) /\
  (forall (g1 g2 : string) (rest : list string),
     split_group_ids (Some (g1 :: g2 :: rest)) = (None, Some (g1 :: g2 :: rest))).
Proof. repeat split. Qed.

(** C1 as stated fails on the empty sequence: the post-filter side is the
    empty sequence, not absent. *)
Lemma split_group_ids_empty_is_kept :
  split_group_ids (Some []) <> (None, None).
Proof. discriminate. Qed.

Lemma split_single_iff (group_ids : option (list string)) (g : string) :
  (split_group_ids group_ids).1 = Some g <-> group_ids = Some [g].
Proof.
  destruct group_ids as [[|g1 [|g2 rest]]|]; cbn; split; congruence.
Qed.

Lemma split_post_absent_iff (group_ids : option (list string)) :
  (split_group_ids group_ids).2 = None
  <-> group_ids = None \/ exists g, group_ids = Some [g].
Proof.
  destruct group_ids as [[|g1 [|g2 rest]]|]; cbn; split;
    try congruence; eauto; intros [|[g ?]]; congruence.
Qed.

(** ** Lengths: an added fragment makes the text longer *)

Lemma join_length_last (l : list string) (s : string) :
  String.length s <= String.length (join " AND " (l ++ [s])).
Proof.
  induction l as [|x l IH]; [reflexivity|].
  destruct l as [|y l].
  - change (join " AND " ([x] ++ [s])) with (x +:+ " AND " +:+ s).
    rewrite !length_append. lia.
  - change (join " AND " ((x :: y :: l) ++ [s]))
      with (x +:+ " AND " +:+ join " AND " ((y :: l) ++ [s])).
    rewrite !length_append. lia.
Qed.

Lemma join_length_grows (l extra : list string) (s : string) :
  extra <> [] ->
  String.length (join " AND " (l ++ [s]))
  < String.length (join " AND " (l ++ extra ++ [s])).
Proof.
  intros Hextra. destruct extra as [|e es]; [congruence|]. clear Hextra.
  assert (Hbase : String.length s
                  < String.length (join " AND " ((e :: es) ++ [s]))).
  { rewrite join_snoc, !length_append. cbn. lia. }
  induction l as [|x l IH]; [exact Hbase|].
  destruct l as [|y l].
  - change (join " AND " ([x] ++ [s])) with (x +:+ " AND " +:+ s).
    change (join " AND " ([x] ++ (e :: es) ++ [s]))
      with (x +:+ " AND " +:+ join " AND " ((e :: es) ++ [s])).
    rewrite !length_append. lia.
  - change (join " AND " ((x :: y :: l) ++ [s]))
      with (x +:+ " AND " +:+ join " AND " ((y :: l) ++ [s])).
    change (join " AND " ((x :: y :: l) ++ (e :: es) ++ [s]))
      with (x +:+ " AND " +:+ join " AND " ((y :: l) ++ (e :: es) ++ [s])).
    rewrite !length_append. lia.
Qed.

Lemma skeleton_post_differs
    (pattern v idx search_where rematch ret : string) (l extra : list string) :
  extra <> [] ->
  skeleton pattern v idx search_where rematch (post_clause (l ++ extra)) ret
  <> skeleton pattern v idx search_where rematch (post_clause l) ret.
Proof.
  intros Hextra Heq. apply (f_equal String.length) in Heq.
  unfold skeleton, post_clause in Heq. rewrite !length_append in Heq.
  pose proof (join_length_grows l extra "score > $min_score" Hextra) as Hlt.
  rewrite <- app_assoc in Heq. lia.
Qed.

(** ** Empty and absent scope *)

Lemma with_endpoints_fragments (group_ids : option (list string))
    (source_node_uuid target_node_uuid : option string)
    (r : list string * gmap string value) :
  (with_endpoints group_ids source_node_uuid target_node_uuid r).1
  = r.1 ++ endpoint_fragments group_ids source_node_uuid target_node_uuid.
Proof.
  destruct group_ids as [gs|], source_node_uuid as [u|],
    target_node_uuid as [w|]; cbn [with_endpoints with_endpoint fst snd
    endpoint_fragments]; rewrite <- ?app_assoc, ?app_nil_r; reflexivity.
Qed.

Lemma with_endpoints_bindings (group_ids : option (list string))
    (source_node_uuid target_node_uuid : option string)
    (r : list string * gmap string value) :
  (with_endpoints group_ids source_node_uuid target_node_uuid r).2
  = bind_endpoints group_ids source_node_uuid target_node_uuid r.2.
Proof.
  destruct group_ids as [gs|], source_node_uuid as [u|],
    target_node_uuid as [w|]; reflexivity.
Qed.

Section EmptyScope.
Context `{C : Collaborators}.

(** C2, as the code has it. With the scope absent, text and bindings
    come from the filter constructor alone. An empty scope is not
    treated as absent: each assembler appends the membership predicate
    and binds [group_ids] to the empty list (the edge assembler then
    also lets the endpoint predicates through), and the text differs
    from the one for an absent scope. Neither case has an index-scope
    clause. *)
Theorem empty_scope_is_not_absent (f : SearchFilters)
    (source_node_uuid target_node_uuid : option string) :
  let nf := node_search_filter_query_constructor f NEO4J in
  let ef := edge_search_filter_query_constructor f NEO4J in
  (build_node_vector_search_query f None
   = (skeleton "MATCH (n:Entity)" "n" NEO4J_ENTITY_VECTOR_INDEX "" ""
        (post_clause nf.1) (get_entity_node_return_query NEO4J), nf.2) /\
   build_community_vector_search_query None
   = (skeleton "MATCH (c:Community)" "c" NEO4J_COMMUNITY_VECTOR_INDEX "" ""
        (post_clause []) COMMUNITY_NODE_RETURN, ∅) /\
   build_edge_vector_search_query f None source_node_uuid target_node_uuid
   = (skeleton "MATCH ()-[e:RELATES_TO]-()" "e" NEO4J_EDGE_VECTOR_INDEX ""
        edge_rematch (post_clause ef.1) (get_entity_edge_return_query NEO4J),
      ef.2)) /\
  (build_node_vector_search_query f (Some [])
   = (skeleton "MATCH (n:Entity)" "n" NEO4J_ENTITY_VECTOR_INDEX "" ""
        (post_clause (nf.1 ++ ["n.group_id IN $group_ids"]))
        (get_entity_node_return_query NEO4J),
      <["group_ids" := VList []]> nf.2) /\
   build_community_vector_search_query (Some [])
   = (skeleton "MATCH (c:Community)" "c" NEO4J_COMMUNITY_VECTOR_INDEX "" ""
        (post_clause ["c.group_id IN $group_ids"]) COMMUNITY_NODE_RETURN,
      {[ "group_ids" := VList [] ]}) /\
   build_edge_vector_search_query f (Some []) source_node_uuid target_node_uuid
   = (skeleton "MATCH ()-[e:RELATES_TO]-()" "e" NEO4J_EDGE_VECTOR_INDEX ""
        edge_rematch
        (post_clause
           (ef.1 ++ ["e.group_id IN $group_ids"]
            ++ endpoint_fragments (Some []) source_node_uuid target_node_uuid))
        (get_entity_edge_return_query NEO4J),
      bind_endpoints (Some []) source_node_uuid target_node_uuid
        (<["group_ids" := VList []]> ef.2))) /\
  ((build_node_vector_search_query f (Some [])).1
   <> (build_node_vector_search_query f None).1 /\
   (build_community_vector_search_query (Some [])).1
   <> (build_community_vector_search_query None).1 /\
   (build_edge_vector_search_query f (Some []) source_node_uuid
      target_node_uuid).1
   <> (build_edge_vector_search_query f None source_node_uuid
         target_node_uuid).1).
Proof.
  intros nf ef. rewrite !node_shape, !community_shape, !edge_shape.
  cbn [split_group_ids fst snd index_scope with_membership].
  rewrite !with_endpoints_fragments, !with_endpoints_bindings.
  cbn [fst snd]. rewrite !(right_id_L ∅ (∪)), <- app_assoc.
  change (endpoint_fragments None source_node_uuid target_node_uuid) with
    (@nil string).
  rewrite app_nil_r. fold nf ef.
  split; [|split]; [repeat split.. | split; [|split]].
  - apply skeleton_post_differs. discriminate.
  - apply (skeleton_post_differs _ _ _ _ _ _ [] ["c.group_id IN $group_ids"]).
    discriminate.
  - apply skeleton_post_differs. discriminate.
Qed.

End EmptyScope.

(** C2 as stated fails: for each assembler the empty scope binds
    [group_ids], the absent one does not. *)
Lemma empty_scope_differs_from_absent :
  (@build_node_vector_search_query sample_env None (Some [])).2 !! "group_ids"
  <> (@build_node_vector_search_query sample_env None None).2 !! "group_ids" /\
  (@build_community_vector_search_query sample_env (Some [])).2 !! "group_ids"
  <> (@build_community_vector_search_query sample_env None).2 !! "group_ids" /\
  (@build_edge_vector_search_query sample_env None (Some []) None None).2
    !! "group_ids"
  <> (@build_edge_vector_search_query sample_env None None None None).2
       !! "group_ids".
Proof. repeat split; vm_compute; discriminate. Qed.

(** ** Occurrences in concatenated text *)

Lemma occurs_append_r (p a b : string) :
  occurs p b = true -> occurs p (a +:+ b) = true.
Proof.
  rewrite !occurs_iff. intros (x & y & ->). exists (a +:+ x), y.
  rewrite append_assoc. reflexivity.
Qed.

Lemma occurs_append_l (p a b : string) :
  occurs p a = true -> occurs p (a +:+ b) = true.
Proof.
  rewrite !occurs_iff. intros (x & y & ->). exists x, (y +:+ b).
  rewrite !append_assoc. reflexivity.
Qed.

Lemma occurs_join_last (p sep s : string) (l : list string) :
  occurs p s = true -> occurs p (join sep (l ++ [s])) = true.
Proof.
  intros Hs. induction l as [|x l IH]; [exact Hs|].
  destruct l as [|y l].
  - change (join sep ([x] ++ [s])) with (x +:+ sep +:+ s).
    do 2 apply occurs_append_r. exact Hs.
  - change (join sep ((x :: y :: l) ++ [s]))
      with (x +:+ sep +:+ join sep ((y :: l) ++ [s])).
    do 2 apply occurs_append_r. exact IH.
Qed.

Lemma occurs_join_elem (p sep s : string) (l : list string) :
  s ∈ l -> occurs p s = true -> occurs p (join sep l) = true.
Proof.
  intros Hin Hs. induction l as [|x l IH]; [inversion Hin|].
  destruct l as [|y l].
  - apply list_elem_of_singleton in Hin as ->. exact Hs.
  - rewrite join_cons_cons. apply elem_of_cons in Hin as [->|Hin].
    + apply occurs_append_l, Hs.
    + do 2 apply occurs_append_r. apply IH, Hin.
Qed.

Ltac find_occurrence :=
  repeat first [ apply occurs_append_l; reflexivity | apply occurs_append_r ].

Lemma skeleton_mentions_external
    (pattern v idx search_where rematch ret : string) (fqs : list string) :
  let text := skeleton pattern v idx search_where rematch (post_clause fqs) ret in
  occurs "$search_vector" text = true /\
  occurs "$limit" text = true /\
  occurs "$min_score" text = true.
Proof.
  intros text. unfold text, skeleton. repeat split.
  - find_occurrence.
  - find_occurrence.
  - do 25 apply occurs_append_r. apply occurs_append_l.
    unfold post_clause. apply occurs_append_r, occurs_join_last. reflexivity.
Qed.

Lemma skeleton_mentions_scope
    (pattern v idx search_where rematch post ret : string) :
  occurs search_where (skeleton pattern v idx search_where rematch post ret)
  = true.
Proof.
  unfold skeleton. do 15 apply occurs_append_r. apply occurs_append_l.
  apply occurs_iff. exists "", "". rewrite append_empty_r. reflexivity.
Qed.

Lemma skeleton_mentions_fragment
    (pattern v idx search_where rematch ret s : string) (fqs : list string) :
  s ∈ fqs ->
  occurs s (skeleton pattern v idx search_where rematch (post_clause fqs) ret)
  = true.
Proof.
  intros Hin. unfold skeleton. do 25 apply occurs_append_r.
  apply occurs_append_l. unfold post_clause. apply occurs_append_r.
  apply (occurs_join_elem s " AND " s); [set_solver|].
  apply occurs_iff. exists "", "". rewrite append_empty_r. reflexivity.
Qed.

(** ** What the assemblers bind *)

Lemma index_scope_lookup (v k : string) (sg : option string) :
  k <> "group_id" -> (index_scope v sg).2 !! k = None.
Proof.
  intros Hk. destruct sg as [g|]; cbn [index_scope snd]; [|apply lookup_empty].
  rewrite lookup_insert_ne by congruence. apply lookup_empty.
Qed.

Lemma with_membership_lookup (v k : string) (pg : option (list string))
    (r : list string * gmap string value) :
  k <> "group_ids" -> (with_membership v pg r).2 !! k = r.2 !! k.
Proof.
  intros Hk. destruct pg as [ids|]; [|reflexivity].
  cbn [with_membership snd]. apply lookup_insert_ne. congruence.
Qed.

Lemma bind_endpoints_lookup (k : string) (group_ids : option (list string))
    (source_node_uuid target_node_uuid : option string) (m : gmap string value) :
  k <> "source_uuid" -> k <> "target_uuid" ->
  bind_endpoints group_ids source_node_uuid target_node_uuid m !! k = m !! k.
Proof.
  intros Hs Ht. destruct group_ids as [gs|], source_node_uuid as [u|],
    target_node_uuid as [w|]; cbn [bind_endpoints];
    rewrite ?lookup_insert_ne by congruence; reflexivity.
Qed.

Lemma not_reserved (k : string) :
  k ∉ reserved_names ->
  k <> "group_id" /\ k <> "group_ids" /\ k <> "source_uuid" /\ k <> "target_uuid".
Proof. unfold reserved_names. set_solver. Qed.

Section Bindings.
Context `{C : Collaborators}.

(** Outside the reserved names, the mapping is the filter constructor's. *)
Lemma node_params_other (f : SearchFilters) (group_ids : option (list string))
    (k : string) :
  k ∉ reserved_names ->
  (build_node_vector_search_query f group_ids).2 !! k
  = (node_search_filter_query_constructor f NEO4J).2 !! k.
Proof.
  intros (Hid & Hids & _ & _)%not_reserved. rewrite node_shape. cbn [snd].
  rewrite lookup_union, index_scope_lookup, with_membership_lookup by assumption.
  apply (right_id None _).
Qed.

Lemma community_params_other (group_ids : option (list string)) (k : string) :
  k ∉ reserved_names ->
  (build_community_vector_search_query group_ids).2 !! k = None.
Proof.
  intros (Hid & Hids & _ & _)%not_reserved. rewrite community_shape. cbn [snd].
  rewrite lookup_union, index_scope_lookup, with_membership_lookup by assumption.
  reflexivity.
Qed.

Lemma edge_params_other (f : SearchFilters) (group_ids : option (list string))
    (source_node_uuid target_node_uuid : option string) (k : string) :
  k ∉ reserved_names ->
  (build_edge_vector_search_query f group_ids source_node_uuid
     target_node_uuid).2 !! k
  = (edge_search_filter_query_constructor f NEO4J).2 !! k.
Proof.
  intros (Hid & Hids & Hs & Ht)%not_reserved. rewrite edge_shape. cbn [snd].
  rewrite lookup_union, index_scope_lookup, with_endpoints_bindings,
    bind_endpoints_lookup, with_membership_lookup by assumption.
  apply (right_id None _).
Qed.

(** C4. When the filter constructors leave the three externally bound
    names alone, none of them is a key of a returned mapping, while each
    returned text mentions all three placeholders. *)
Theorem external_names_left_unbound
    (Hclear : keeps_clear C external_names)
    (f : SearchFilters) (group_ids : option (list string))
    (source_node_uuid target_node_uuid : option string)
    (k : string) (Hk : k ∈ external_names) :
  let node := build_node_vector_search_query f group_ids in
  let community := build_community_vector_search_query group_ids in
  let edge := build_edge_vector_search_query f group_ids source_node_uuid
                target_node_uuid in
  (node.2 !! k = None /\ community.2 !! k = None /\ edge.2 !! k = None) /\
  (occurs "$search_vector" node.1 = true /\ occurs "$limit" node.1 = true /\
   occurs "$min_score" node.1 = true) /\
  (occurs "$search_vector" community.1 = true /\
   occurs "$limit" community.1 = true /\
   occurs "$min_score" community.1 = true) /\
  (occurs "$search_vector" edge.1 = true /\ occurs "$limit" edge.1 = true /\
   occurs "$min_score" edge.1 = true).
Proof.
  intros node community edge.
  assert (Hfree : k ∉ reserved_names).
  { unfold external_names, reserved_names in *. set_solver. }
  destruct (Hclear f k Hk) as [Hnode Hedge].
  split; [|split; [|split]].
  - unfold node, community, edge.
    rewrite node_params_other, community_params_other, edge_params_other
      by exact Hfree.
    auto.
  - unfold node. rewrite node_shape. apply skeleton_mentions_external.
  - unfold community. rewrite community_shape. apply skeleton_mentions_external.
  - unfold edge. rewrite edge_shape. apply skeleton_mentions_external.
Qed.

End Bindings.

Lemma external_names_left_unbound_witness :
  keeps_clear sample_env external_names /\
  "limit" ∈ external_names /\
  (@build_edge_vector_search_query sample_env (Some ["u1"]) (Some ["a"; "b"])
     (Some "x") None).2 !! "limit" = None.
Proof.
  assert (Hclear : keeps_clear sample_env external_names).
  { apply sample_keeps_clear. unfold external_names. set_solver. }
  assert (Hk : "limit" ∈ external_names).
  { unfold external_names. set_solver. }
  split; [exact Hclear|]. split; [exact Hk|].
  exact (proj2 (proj2 (proj1
    (@external_names_left_unbound sample_env Hclear (Some ["u1"])
       (Some ["a"; "b"]) (Some "x") None "limit" Hk)))).
Defined.

(** ** Placeholders and bindings agree *)

Section Agreement.
Context `{C : Collaborators} (HC : Contract C).

Lemma skeleton_placeholder_set
    (pattern v idx rematch ret : string) (sg : option string)
    (r : list string * gmap string value) :
  dollar_free pattern = true -> dollar_free v = true ->
  dollar_free idx = true -> dollar_free rematch = true ->
  dollar_free ret = true ->
  fragment_placeholders r.1 = dom r.2 ->
  placeholder_set
    (skeleton pattern v idx (index_scope v sg).1 rematch (post_clause r.1) ret)
  = dom (r.2 ∪ (index_scope v sg).2) ∪ external_names.
Proof.
  intros Hpattern Hv Hidx Hrematch Hret Hr. unfold placeholder_set.
  rewrite skeleton_placeholders by (assumption || apply index_scope_stops).
  rewrite !list_to_set_app_L, (index_scope_placeholders v sg Hv).
  fold (fragment_placeholders r.1). rewrite Hr, dom_union_L.
  unfold external_names. set_solver.
Qed.

Lemma node_placeholder_set (f : SearchFilters)
    (group_ids : option (list string)) :
  placeholder_set (build_node_vector_search_query f group_ids).1
  = dom (build_node_vector_search_query f group_ids).2 ∪ external_names.
Proof.
  rewrite node_shape. cbn [fst snd]. destruct HC.
  apply skeleton_placeholder_set; try reflexivity; try assumption.
  apply with_membership_placeholders; [reflexivity | auto].
Qed.

Lemma community_placeholder_set (group_ids : option (list string)) :
  placeholder_set (build_community_vector_search_query group_ids).1
  = dom (build_community_vector_search_query group_ids).2 ∪ external_names.
Proof.
  rewrite community_shape. cbn [fst snd]. destruct HC.
  apply skeleton_placeholder_set; try reflexivity; try assumption.
  apply with_membership_placeholders; [reflexivity|].
  unfold fragment_placeholders. cbn. rewrite dom_empty_L. reflexivity.
Qed.

Lemma edge_placeholder_set (f : SearchFilters)
    (group_ids : option (list string))
    (source_node_uuid target_node_uuid : option string) :
  placeholder_set
    (build_edge_vector_search_query f group_ids source_node_uuid
       target_node_uuid).1
  = dom (build_edge_vector_search_query f group_ids source_node_uuid
           target_node_uuid).2 ∪ external_names.
Proof.
  rewrite edge_shape. cbn [fst snd]. destruct HC.
  apply skeleton_placeholder_set; try reflexivity; try assumption.
  apply with_endpoints_placeholders, with_membership_placeholders;
    [reflexivity | auto].
Qed.

(** C7. Under the collaborators' contract, the placeholders of each
    returned text are the keys of the returned mapping together with the
    three externally bound names. *)
Theorem placeholders_are_the_bindings
    (f : SearchFilters) (group_ids : option (list string))
    (source_node_uuid target_node_uuid : option string) :
  let node := build_node_vector_search_query f group_ids in
  let community := build_community_vector_search_query group_ids in
  let edge := build_edge_vector_search_query f group_ids source_node_uuid
                target_node_uuid in
  placeholder_set node.1 = dom node.2 ∪ external_names /\
  placeholder_set community.1 = dom community.2 ∪ external_names /\
  placeholder_set edge.1 = dom edge.2 ∪ external_names.
Proof.
  intros node community edge. split; [|split].
  - apply node_placeholder_set.
  - apply community_placeholder_set.
  - apply edge_placeholder_set.
Qed.

(** C3, as the code has it. For the scope ["tenantA"] and a filter that
    contributes nothing, the text carries the index-scope clause on
    [$group_id], its post-filter is the score threshold alone, [$group_ids]
    is not mentioned, and the mapping is exactly [{group_id: "tenantA"}]:
    [min_score] is not bound. *)
Theorem tenant_scenario (f : SearchFilters)
    (Hempty : node_search_filter_query_constructor f NEO4J = ([], ∅)) :
  let q := build_node_vector_search_query f (Some ["tenantA"]) in
  q.1 = skeleton "MATCH (n:Entity)" "n" NEO4J_ENTITY_VECTOR_INDEX
          " WHERE n.group_id = $group_id" "" " WHERE score > $min_score"
          (get_entity_node_return_query NEO4J) /\
  occurs " WHERE n.group_id = $group_id" q.1 = true /\
  ("group_id" ∈ placeholder_set q.1) /\
  ("group_ids" ∉ placeholder_set q.1) /\
  q.2 = {[ "group_id" := VStr "tenantA" ]} /\
  q.2 !! "min_score" = None.
Proof.
  intros q.
  pose proof (node_placeholder_set f (Some ["tenantA"])) as Hset.
  fold q in Hset.
  assert (Hq : q = (skeleton "MATCH (n:Entity)" "n" NEO4J_ENTITY_VECTOR_INDEX
                      " WHERE n.group_id = $group_id" ""
                      " WHERE score > $min_score"
                      (get_entity_node_return_query NEO4J),
                    {[ "group_id" := VStr "tenantA" ]})).
  { unfold q. rewrite node_shape, Hempty.
    cbn [split_group_ids length Nat.eqb fst snd with_membership index_scope].
    rewrite (left_id_L ∅ (∪)). reflexivity. }
  rewrite Hset. clear Hset. rewrite Hq. cbn [fst snd].
  rewrite dom_singleton_L.
  split; [reflexivity|]. split.
  { apply (skeleton_mentions_scope _ _ _ " WHERE n.group_id = $group_id"). }
  split; [set_solver|]. split; [unfold external_names; set_solver|].
  split; reflexivity.
Qed.

End Agreement.

Lemma tenant_scenario_witness :
  @node_search_filter_query_constructor sample_env None tt = ([], ∅) /\
  (@build_node_vector_search_query sample_env None (Some ["tenantA"])).2
  = {[ "group_id" := VStr "tenantA" ]}.
Proof.
  assert (Hempty : @node_search_filter_query_constructor sample_env None tt
                   = ([], ∅)) by reflexivity.
  split; [exact Hempty|].
  exact (proj1 (proj2 (proj2 (proj2 (proj2
    (@tenant_scenario sample_env sample_contract None Hempty)))))).
Defined.

(** C3 as stated fails: whatever value [min_score] is given, the returned
    mapping is not [{group_id: "tenantA", min_score: ...}]. *)
Lemma tenant_scenario_min_score_unbound :
  ~ exists v : value,
      (@build_node_vector_search_query sample_env None (Some ["tenantA"])).2
      = <["min_score" := v]> {[ "group_id" := VStr "tenantA" ]}.
Proof.
  intros [v Hv]. apply (f_equal (lookup "min_score")) in Hv.
  rewrite lookup_insert_eq in Hv. vm_compute in Hv. discriminate.
Qed.

Lemma placeholders_are_the_bindings_witness :
  Contract sample_env /\
  placeholder_set
    (@build_edge_vector_search_query sample_env (Some ["u1"]) (Some ["a"; "b"])
       (Some "x") None).1
  = dom (@build_edge_vector_search_query sample_env (Some ["u1"])
           (Some ["a"; "b"]) (Some "x") None).2 ∪ external_names.
Proof.
  split; [exact sample_contract|].
  exact (proj2 (proj2
    (@placeholders_are_the_bindings sample_env sample_contract (Some ["u1"])
       (Some ["a"; "b"]) (Some "x") None))).
Defined.

(** ** Consecutive fragments in the post-filter *)

Lemma join_append (sep : string) (a b : list string) :
  a <> [] -> b <> [] ->
  join sep (a ++ b) = join sep a +:+ sep +:+ join sep b.
Proof.
  intros Ha Hb. destruct b as [|y b]; [congruence|]. clear Hb.
  induction a as [|x a IH]; [congruence|]. clear Ha.
  destruct a as [|z a]; [reflexivity|].
  change (join sep ((x :: z :: a) ++ y :: b))
    with (x +:+ sep +:+ join sep ((z :: a) ++ y :: b)).
  rewrite IH by discriminate. rewrite join_cons_cons, !append_assoc.
  reflexivity.
Qed.

Lemma occurs_self (p : string) : occurs p p = true.
Proof. apply occurs_iff. exists "", "". rewrite append_empty_r. reflexivity. Qed.

Lemma occurs_join_run (sep : string) (before run after : list string) :
  run <> [] ->
  occurs (join sep run) (join sep (before ++ run ++ after)) = true.
Proof.
  intros Hrun.
  assert (Htail : occurs (join sep run) (join sep (run ++ after)) = true).
  { destruct after as [|y after].
    - rewrite app_nil_r. apply occurs_self.
    - rewrite join_append by (assumption || discriminate).
      apply occurs_append_l, occurs_self. }
  destruct before as [|x before]; [exact Htail|].
  rewrite join_append; [|discriminate|].
  - do 2 apply occurs_append_r. exact Htail.
  - destruct run; [congruence | discriminate].
Qed.

Lemma skeleton_mentions_run
    (pattern v idx search_where rematch ret : string)
    (fqs before run after : list string) :
  run <> [] -> fqs ++ ["score > $min_score"] = before ++ run ++ after ->
  occurs (join " AND " run)
    (skeleton pattern v idx search_where rematch (post_clause fqs) ret) = true.
Proof.
  intros Hrun Hsplit. unfold skeleton. do 25 apply occurs_append_r.
  apply occurs_append_l. unfold post_clause. apply occurs_append_r.
  rewrite Hsplit. apply occurs_join_run, Hrun.
Qed.

(** ** The endpoint gate of the edge assembler *)

Section EndpointGate.
Context `{C : Collaborators}.

Lemma edge_absent_scope (f : SearchFilters)
    (source_node_uuid target_node_uuid : option string) :
  build_edge_vector_search_query f None source_node_uuid target_node_uuid
  = (skeleton "MATCH ()-[e:RELATES_TO]-()" "e" NEO4J_EDGE_VECTOR_INDEX ""
       edge_rematch
       (post_clause (edge_search_filter_query_constructor f NEO4J).1)
       (get_entity_edge_return_query NEO4J),
     (edge_search_filter_query_constructor f NEO4J).2).
Proof.
  rewrite edge_shape.
  cbn [split_group_ids fst snd index_scope with_membership with_endpoints].
  rewrite (right_id_L ∅ (∪)). reflexivity.
Qed.

Lemma edge_empty_scope (f : SearchFilters)
    (source_node_uuid target_node_uuid : option string) :
  build_edge_vector_search_query f (Some []) source_node_uuid target_node_uuid
  = (skeleton "MATCH ()-[e:RELATES_TO]-()" "e" NEO4J_EDGE_VECTOR_INDEX ""
       edge_rematch
       (post_clause
          ((edge_search_filter_query_constructor f NEO4J).1
           ++ ["e.group_id IN $group_ids"]
           ++ endpoint_fragments (Some []) source_node_uuid target_node_uuid))
       (get_entity_edge_return_query NEO4J),
     bind_endpoints (Some []) source_node_uuid target_node_uuid
       (<["group_ids" := VList []]>
          (edge_search_filter_query_constructor f NEO4J).2)).
Proof.
  rewrite edge_shape.
  cbn [split_group_ids fst snd index_scope with_membership].
  rewrite with_endpoints_fragments, with_endpoints_bindings.
  cbn [fst snd]. rewrite (right_id_L ∅ (∪)), <- app_assoc. reflexivity.
Qed.

(** C6. With the scope absent, the endpoint arguments have no effect:
    the post-filter and the mapping are the filter constructor's own, so
    that (the constructor leaving the reserved names alone) neither
    [source_uuid] nor [target_uuid] is bound or mentioned. *)
Theorem endpoints_need_a_scope
    (HC : Contract C) (Hclear : keeps_clear C reserved_names)
    (f : SearchFilters) (source_node_uuid target_node_uuid : option string) :
  let q := build_edge_vector_search_query f None source_node_uuid
             target_node_uuid in
  q = build_edge_vector_search_query f None None None /\
  q.1 = skeleton "MATCH ()-[e:RELATES_TO]-()" "e" NEO4J_EDGE_VECTOR_INDEX ""
          edge_rematch
          (post_clause (edge_search_filter_query_constructor f NEO4J).1)
          (get_entity_edge_return_query NEO4J) /\
  q.2 = (edge_search_filter_query_constructor f NEO4J).2 /\
  q.2 !! "source_uuid" = None /\
  q.2 !! "target_uuid" = None /\
  ("source_uuid" ∉ placeholder_set q.1) /\
  ("target_uuid" ∉ placeholder_set q.1).
Proof.
  intros q.
  pose proof (edge_placeholder_set HC f None source_node_uuid
                target_node_uuid) as Hset.
  fold q in Hset. rewrite Hset. clear Hset.
  unfold q. rewrite !edge_absent_scope. cbn [fst snd].
  assert (Hs : (edge_search_filter_query_constructor f NEO4J).2
               !! "source_uuid" = None).
  { apply (Hclear f "source_uuid"). unfold reserved_names. set_solver. }
  assert (Ht : (edge_search_filter_query_constructor f NEO4J).2
               !! "target_uuid" = None).
  { apply (Hclear f "target_uuid"). unfold reserved_names. set_solver. }
  do 5 (split; [done|]).
  apply not_elem_of_dom in Hs, Ht. unfold external_names.
  split; set_solver.
Qed.

(** C10. With the empty list as scope the gate is open: a given endpoint
    is bound and its equality predicate is part of the post-filter, after
    the membership predicate on [$group_ids]; with the scope absent the
    same endpoint arguments change nothing. *)
Theorem empty_scope_opens_the_gate
    (f : SearchFilters) (u : string) (other : option string) :
  let with_source := build_edge_vector_search_query f (Some []) (Some u) other in
  let with_target := build_edge_vector_search_query f (Some []) other (Some u) in
  (with_source.2 !! "source_uuid" = Some (VStr u) /\
   occurs "e.group_id IN $group_ids AND n.uuid = $source_uuid" with_source.1
   = true) /\
  (with_target.2 !! "target_uuid" = Some (VStr u) /\
   occurs "m.uuid = $target_uuid AND score > $min_score" with_target.1
   = true) /\
  build_edge_vector_search_query f None (Some u) other
  = build_edge_vector_search_query f None None None /\
  build_edge_vector_search_query f None other (Some u)
  = build_edge_vector_search_query f None None None.
Proof.
  intros with_source with_target. unfold with_source, with_target.
  rewrite !edge_empty_scope, !edge_absent_scope. cbn [fst snd].
  split; [|split; [|split; reflexivity]].
  - split.
    + destruct other as [w|]; cbn [bind_endpoints];
        rewrite ?lookup_insert_ne by discriminate; apply lookup_insert_eq.
    + apply (skeleton_mentions_run _ _ _ _ _ _ _
               (edge_search_filter_query_constructor f NEO4J).1
               ["e.group_id IN $group_ids"; "n.uuid = $source_uuid"]
               (endpoint_fragments (Some []) None other
                ++ ["score > $min_score"])); [discriminate|].
      rewrite <- !app_assoc. reflexivity.
  - split.
    + destruct other as [w|]; cbn [bind_endpoints]; apply lookup_insert_eq.
    + apply (skeleton_mentions_run _ _ _ _ _ _ _
               ((edge_search_filter_query_constructor f NEO4J).1
                ++ ["e.group_id IN $group_ids"]
                ++ endpoint_fragments (Some []) other None)
               ["m.uuid = $target_uuid"; "score > $min_score"] []);
        [discriminate|].
      destruct other as [w|]; cbn [endpoint_fragments];
        rewrite <- !app_assoc; reflexivity.
Qed.

End EndpointGate.

Lemma endpoints_need_a_scope_witness :
  Contract sample_env /\ keeps_clear sample_env reserved_names /\
  (@build_edge_vector_search_query sample_env (Some ["u1"]) None (Some "x")
     None).2 !! "source_uuid" = None.
Proof.
  assert (Hclear : keeps_clear sample_env reserved_names).
  { apply sample_keeps_clear. unfold reserved_names. set_solver. }
  split; [exact sample_contract|]. split; [exact Hclear|].
  exact (proj1 (proj2 (proj2 (proj2
    (@endpoints_need_a_scope sample_env sample_contract Hclear (Some ["u1"])
       (Some "x") None))))).
Defined.

(** ** Repeated calls *)

Section RepeatedCalls.
Import InPlace.
Context `{C : Collaborators} {K : Calls C}.

(** A call on objects that hold the answer returns what the assembler
    returns on the answer itself. *)
Lemma node_in_place_refines (f : SearchFilters)
    (group_ids : option (list string)) (s : store) :
  hands_out_the_answer ->
  (build_node_vector_search_query_in_place f group_ids s).1
  = build_node_vector_search_query f group_ids.
Proof.
  intros Hanswer. destruct (Hanswer f s) as [[Hl Hd] _].
  unfold build_node_vector_search_query_in_place,
    build_node_vector_search_query.
  destruct (split_group_ids group_ids) as [sg pg].
  unfold mbind, H_bind.
  destruct (node_search_filter_query_constructor_call f NEO4J s)
    as [[l d] s'].
  destruct (node_search_filter_query_constructor f NEO4J) as [fq fp].
  cbn [fst snd] in Hl, Hd.
  destruct pg as [ids|], sg as [g|];
    unfold list_append, dict_setitem, list_items, dict_items, mret, H_ret;
    cbn [lists dicts fst snd];
    rewrite ?lookup_alter_eq, ?Hl, ?Hd; reflexivity.
Qed.

Lemma edge_in_place_refines (f : SearchFilters)
    (group_ids : option (list string))
    (source_node_uuid target_node_uuid : option string) (s : store) :
  hands_out_the_answer ->
  (build_edge_vector_search_query_in_place f group_ids source_node_uuid
     target_node_uuid s).1
  = build_edge_vector_search_query f group_ids source_node_uuid
      target_node_uuid.
Proof.
  intros Hanswer. destruct (Hanswer f s) as [_ [Hl Hd]].
  unfold build_edge_vector_search_query_in_place,
    build_edge_vector_search_query.
  destruct (split_group_ids group_ids) as [sg pg].
  unfold mbind, H_bind.
  destruct (edge_search_filter_query_constructor_call f NEO4J s)
    as [[l d] s'].
  destruct (edge_search_filter_query_constructor f NEO4J) as [fq fp].
  cbn [fst snd] in Hl, Hd.
  destruct pg as [ids|], sg as [g|], group_ids as [gs|],
    source_node_uuid as [u|], target_node_uuid as [w|];
    unfold list_append, dict_setitem, list_items, dict_items, mret, H_ret;
    cbn [lists dicts fst snd];
    rewrite ?lookup_alter_eq, ?Hl, ?Hd; reflexivity.
Qed.


End RepeatedCalls.

Lemma building_hands_out_the_answer (C : Collaborators) :
  @InPlace.hands_out_the_answer C (InPlace.building C).
Proof.
  intros f s. split; split; cbn; apply lookup_insert_eq.
Qed.



(** ** Clause order *)

Lemma index_scope_clause (v : string) (group_ids : option (list string)) :
  (index_scope v (split_group_ids group_ids).1).1 = scope_clause v group_ids.
Proof. destruct group_ids as [[|g1 [|g2 rest]]|]; reflexivity. Qed.

Lemma with_membership_fragments (v : string) (group_ids : option (list string))
    (r : list string * gmap string value) :
  (with_membership v (split_group_ids group_ids).2 r).1
  = r.1 ++ membership_fragment v group_ids.
Proof.
  destruct group_ids as [[|g1 [|g2 rest]]|]; cbn; rewrite ?app_nil_r;
    reflexivity.
Qed.

Ltac clause_here :=
  exists (nl +:+ "        "); eexists; split;
    [rewrite (append_assoc nl); reflexivity|].

Ltac clause_indented :=
  exists (nl +:+ "            "); eexists; split;
    [rewrite (append_assoc nl); reflexivity|].

Lemma skeleton_in_order (pattern v idx search_where rematch post ret : string) :
  in_order (clauses pattern v idx search_where rematch post ret)
    (skeleton pattern v idx search_where rematch post ret).
Proof.
  unfold skeleton, clauses. cbn [in_order].
  clause_here.
  exists (nl +:+ "        "); eexists; split.
  { rewrite (append_assoc nl), (append_assoc "SEARCH "), (append_assoc v).
    reflexivity. }
  exists (nl +:+ "            "); eexists; split.
  { rewrite (append_assoc nl), (append_assoc "VECTOR INDEX "). reflexivity. }
  exists (nl +:+ "            "); eexists; split.
  { rewrite (append_assoc nl), (append_assoc "FOR $search_vector").
    reflexivity. }
  clause_indented.
  exists (nl +:+ "        "); eexists; split.
  { rewrite (append_assoc nl), (append_assoc ") SCORE AS score"). reflexivity. }
  do 5 clause_here. exact I.
Qed.

Section ClauseOrder.
Context `{C : Collaborators}.

(** C9. Every returned text is the shared layout filled with: the match
    pattern; the index lookup, scoped by [$group_id] exactly when one scope
    identifier is given, and capped by [$limit]; for edges the re-match of
    the relationship; the post-filter, which joins the accumulated
    fragments and ends with the score threshold; the projection of the
    kind; the ordering; and [$limit] once more. The clauses occur in
    that order. *)
Theorem clause_order (f : SearchFilters) (group_ids : option (list string))
    (source_node_uuid target_node_uuid : option string) :
  let node_post :=
    post_clause ((node_search_filter_query_constructor f NEO4J).1
                 ++ membership_fragment "n" group_ids) in
  let community_post := post_clause (membership_fragment "c" group_ids) in
  let edge_post :=
    post_clause ((edge_search_filter_query_constructor f NEO4J).1
                 ++ membership_fragment "e" group_ids
                 ++ endpoint_fragments group_ids source_node_uuid
                      target_node_uuid) in
  let node := (build_node_vector_search_query f group_ids).1 in
  let community := (build_community_vector_search_query group_ids).1 in
  let edge := (build_edge_vector_search_query f group_ids source_node_uuid
                 target_node_uuid).1 in
  (node = skeleton "MATCH (n:Entity)" "n" NEO4J_ENTITY_VECTOR_INDEX
            (scope_clause "n" group_ids) "" node_post
            (get_entity_node_return_query NEO4J) /\
   in_order (clauses "MATCH (n:Entity)" "n" NEO4J_ENTITY_VECTOR_INDEX
               (scope_clause "n" group_ids) "" node_post
               (get_entity_node_return_query NEO4J)) node) /\
  (community = skeleton "MATCH (c:Community)" "c" NEO4J_COMMUNITY_VECTOR_INDEX
                 (scope_clause "c" group_ids) "" community_post
                 COMMUNITY_NODE_RETURN /\
   in_order (clauses "MATCH (c:Community)" "c" NEO4J_COMMUNITY_VECTOR_INDEX
               (scope_clause "c" group_ids) "" community_post
               COMMUNITY_NODE_RETURN) community) /\
  (edge = skeleton "MATCH ()-[e:RELATES_TO]-()" "e" NEO4J_EDGE_VECTOR_INDEX
            (scope_clause "e" group_ids) edge_rematch edge_post
            (get_entity_edge_return_query NEO4J) /\
   in_order (clauses "MATCH ()-[e:RELATES_TO]-()" "e" NEO4J_EDGE_VECTOR_INDEX
               (scope_clause "e" group_ids) edge_rematch edge_post
               (get_entity_edge_return_query NEO4J)) edge).
Proof.
  intros node_post community_post edge_post node community edge.
  assert (Hnode : node = skeleton "MATCH (n:Entity)" "n"
                           NEO4J_ENTITY_VECTOR_INDEX
                           (scope_clause "n" group_ids) "" node_post
                           (get_entity_node_return_query NEO4J)).
  { unfold node. rewrite node_shape. cbn [fst].
    rewrite index_scope_clause, with_membership_fragments. reflexivity. }
  assert (Hcommunity : community = skeleton "MATCH (c:Community)" "c"
                                     NEO4J_COMMUNITY_VECTOR_INDEX
                                     (scope_clause "c" group_ids) ""
                                     community_post COMMUNITY_NODE_RETURN).
  { unfold community. rewrite community_shape. cbn [fst].
    rewrite index_scope_clause, with_membership_fragments. reflexivity. }
  assert (Hedge : edge = skeleton "MATCH ()-[e:RELATES_TO]-()" "e"
                           NEO4J_EDGE_VECTOR_INDEX
                           (scope_clause "e" group_ids) edge_rematch
                           edge_post (get_entity_edge_return_query NEO4J)).
  { unfold edge. rewrite edge_shape. cbn [fst].
    rewrite index_scope_clause, with_endpoints_fragments,
      with_membership_fragments, <- app_assoc. reflexivity. }
  rewrite Hnode, Hcommunity, Hedge.
  repeat split; apply skeleton_in_order.
Qed.

End ClauseOrder.

Example sample_clause_order :
  clauses "MATCH (c:Community)" "c" "community_name_embedding"
    (scope_clause "c" (Some ["tenantA"])) ""
    (post_clause (membership_fragment "c" (Some ["tenantA"])))
    "c.uuid AS uuid"
  = [ "MATCH (c:Community)"; "SEARCH c IN (";
      "VECTOR INDEX community_name_embedding";
      "FOR $search_vector WHERE c.group_id = $group_id"; "LIMIT $limit";
      ") SCORE AS score"; " WHERE score > $min_score"; "RETURN";
      "c.uuid AS uuid"; "ORDER BY score DESC"; "LIMIT $limit" ].
Proof. reflexivity. Qed.

(** * Further properties *)

(** ** The tracker *)

Module TrackerLaws.
Import Tracker TrackerFacts.

Lemma mark_each_fresh_witness :
  @accepts plain_objects 1%positive /\
  @fresh plain_objects 1%positive empty_world /\
  logged (@mark_each plain_objects 1%positive
            [ {| exc_str := "a" |}; {| exc_str := "b" |}; {| exc_str := "c" |} ]
            empty_world).2
  = [fallback_warning {| exc_str := "a" |}].
Proof.
  assert (Hacc : @accepts plain_objects 1%positive) by (split; reflexivity).
  assert (Hfresh : @fresh plain_objects 1%positive empty_world)
    by (split; reflexivity).
  split; [exact Hacc|]. split; [exact Hfresh|].
  exact (proj1 (@mark_each_fresh plain_objects 1%positive {| exc_str := "a" |}
                  [ {| exc_str := "b" |}; {| exc_str := "c" |} ]
                  empty_world Hacc Hfresh)).
Defined.

Section Laws.
Context `{OM : ObjectModel}.

(** X1. The index is switched off exactly when reading the mode attribute
    finds the string ['fallback']; an attribute found nowhere or any other
    value keeps it on. *)
Theorem index_off_iff_fallback (t : target) (w : world) :
  (should_use_search_index t w).1 = Returned false
  <-> read (attrs w) t _VECTOR_SEARCH_MODE_ATTR = Some (VStr "fallback").
Proof.
  rewrite should_use_value.
  destruct (read (attrs w) t _VECTOR_SEARCH_MODE_ATTR) as [[| | |s|]|];
    unfold default; cbn [from_option id ne_str]; try (split; discriminate).
  split.
  - intros [= Hs]. apply negb_false_iff, String.eqb_eq in Hs. congruence.
  - intros [= ->]. reflexivity.
Qed.

(** X2. On a target that takes the tracker's attributes, a second mark
    changes nothing at all: after one mark the world is a fixed point of
    marking the same target, whatever the cause. *)
Theorem mark_is_idempotent (t : target) (exc1 exc2 : Exception) (w : world)
    (Haccepts : accepts t) :
  mark_search_index_fallback t exc2 (mark_search_index_fallback t exc1 w).2
  = (Returned tt, (mark_search_index_fallback t exc1 w).2).
Proof.
  pose proof (mark_sets_warned t exc1 w Haccepts) as Hwarned.
  pose proof (mark_sets_mode t exc1 w Haccepts) as Hmode.
  destruct (mark_search_index_fallback t exc1 w).2 as [a l] eqn:Hw1.
  rewrite mark_unfold by exact Haccepts. rewrite Hwarned.
  cbn [attrs logged] in *.
  rewrite (insert_id _ _ _ Hmode), app_nil_r. reflexivity.
Qed.


(** X5. On a target that takes the tracker's attributes, from any world,
    a run of marks adds at most one record to the log: none when the
    one-shot flag already reads as true (or the run is empty), otherwise
    the warning for the first cause. Earlier records are kept. *)
Theorem warnings_of_a_run (t : target) (excs : list Exception) (w : world)
    (Haccepts : accepts t) :
  logged (mark_each t excs w).2
  = logged w
    ++ (if warned t w then []
        else match excs with
             | [] => []
             | exc :: _ => [fallback_warning exc]
             end).
Proof.
  destruct excs as [|exc rest].
  - destruct (warned t w); symmetry; apply app_nil_r.
  - rewrite mark_each_cons by exact Haccepts.
    destruct (mark_each_warned t rest (mark_search_index_fallback t exc w).2
                Haccepts (mark_sets_warned t exc w Haccepts)) as [Hlog _].
    rewrite Hlog. apply mark_log, Haccepts.
Qed.


(** X16. On a target that refuses the flag attribute and has not been
    warned, a mark logs its warning and then raises [AttributeError]
    without storing anything: the target is as unwarned as before, its
    mode reads as before, and the next mark warns again. *)
Theorem mark_on_refusing_target (t : target) (exc : Exception) (w : world)
    (Hrefuses : settable t _VECTOR_SEARCH_FALLBACK_LOGGED_ATTR = false)
    (Hunwarned : warned t w = false) :
  let r := mark_search_index_fallback t exc w in
  r.1 = Raised (AttributeError t _VECTOR_SEARCH_FALLBACK_LOGGED_ATTR) /\
  logged r.2 = logged w ++ [fallback_warning exc] /\
  attrs r.2 = attrs w /\
  warned t r.2 = false /\
  (should_use_search_index t r.2).1 = (should_use_search_index t w).1 /\
  (forall exc',
     logged (mark_search_index_fallback t exc' r.2).2
     = logged w ++ [fallback_warning exc; fallback_warning exc']).
Proof.
  intros r. unfold r. rewrite (mark_refused t exc w Hrefuses Hunwarned).
  cbn [fst snd attrs logged].
  split; [reflexivity|]. split; [reflexivity|]. split; [reflexivity|].
  split; [exact Hunwarned|]. split; [reflexivity|].
  intros exc'. rewrite mark_refused; [|exact Hrefuses|exact Hunwarned].
  cbn [snd logged]. rewrite <- app_assoc. reflexivity.
Qed.

(** X17. Reads fall through to the class: once a fresh class that takes
    the tracker's attributes is marked, an instance of it that holds
    neither attribute itself reads the index as off and counts as warned,
    so that marking the instance logs nothing more. *)
Theorem marking_a_class_marks_its_instances
    (c t : target) (rest : list target) (exc : Exception) (w : world)
    (Hclass : bases t = c :: rest)
    (Haccepts : accepts c) (Hfresh : fresh c w)
    (Hmode : attrs w !! (t, _VECTOR_SEARCH_MODE_ATTR) = None)
    (Hflag : attrs w !! (t, _VECTOR_SEARCH_FALLBACK_LOGGED_ATTR) = None) :
  let w' := (mark_search_index_fallback c exc w).2 in
  (should_use_search_index t w').1 = Returned false /\
  warned t w' = true /\
  (forall exc', accepts t ->
     logged (mark_search_index_fallback t exc' w').2 = logged w').
Proof.
  intros w'.
  assert (Hm : read (attrs w') t _VECTOR_SEARCH_MODE_ATTR
               = Some (VStr "fallback")).
  { unfold w'. rewrite mark_unfold by exact Haccepts. cbn [snd attrs].
    unfold read. rewrite Hclass. cbn [first_held].
    rewrite (fresh_not_warned _ _ Hfresh).
    destruct (decide (t = c)) as [->|Hne].
    - rewrite lookup_insert_eq. reflexivity.
    - rewrite !lookup_insert_ne by congruence. rewrite Hmode.
      rewrite lookup_insert_eq. reflexivity. }
  assert (Hw : warned t w' = true).
  { unfold warned, w'. rewrite mark_unfold by exact Haccepts. cbn [snd attrs].
    rewrite read_insert_other_name by apply not_eq_sym, attr_names_differ.
    rewrite (fresh_not_warned _ _ Hfresh).
    unfold read. rewrite Hclass. cbn [first_held].
    destruct (decide (t = c)) as [->|Hne].
    - rewrite lookup_insert_eq. reflexivity.
    - rewrite lookup_insert_ne by congruence. rewrite Hflag.
      rewrite lookup_insert_eq. reflexivity. }
  split; [|split].
  - rewrite should_use_value, Hm. reflexivity.
  - exact Hw.
  - intros exc' Hacc. rewrite mark_log by exact Hacc. rewrite Hw.
    apply app_nil_r.
Qed.

End Laws.

Lemma mark_is_idempotent_witness :
  @accepts plain_objects 1%positive /\
  @mark_search_index_fallback plain_objects 1%positive {| exc_str := "b" |}
    (@mark_search_index_fallback plain_objects 1%positive {| exc_str := "a" |}
       empty_world).2
  = (Returned tt,
     (@mark_search_index_fallback plain_objects 1%positive {| exc_str := "a" |}
        empty_world).2).
Proof.
  assert (Hacc : @accepts plain_objects 1%positive) by (split; reflexivity).
  split; [exact Hacc|].
  exact (@mark_is_idempotent plain_objects 1%positive {| exc_str := "a" |}
           {| exc_str := "b" |} empty_world Hacc).
Defined.


Lemma warnings_of_a_run_witness :
  @accepts plain_objects 1%positive /\
  logged (@mark_each plain_objects 1%positive
            [ {| exc_str := "a" |}; {| exc_str := "b" |} ] empty_world).2
  = [fallback_warning {| exc_str := "a" |}].
Proof.
  assert (Hacc : @accepts plain_objects 1%positive) by (split; reflexivity).
  split; [exact Hacc|].
  exact (@warnings_of_a_run plain_objects 1%positive
           [ {| exc_str := "a" |}; {| exc_str := "b" |} ] empty_world Hacc).
Defined.


Lemma mark_on_refusing_target_witness :
  @settable sealed_objects 1%positive _VECTOR_SEARCH_FALLBACK_LOGGED_ATTR = false /\
  @warned sealed_objects 1%positive empty_world = false /\
  (@mark_search_index_fallback sealed_objects 1%positive {| exc_str := "a" |}
     empty_world).1
  = Raised (AttributeError 1%positive _VECTOR_SEARCH_FALLBACK_LOGGED_ATTR).
Proof.
  assert (Hr : @settable sealed_objects 1%positive
                 _VECTOR_SEARCH_FALLBACK_LOGGED_ATTR = false) by reflexivity.
  assert (Hw : @warned sealed_objects 1%positive empty_world = false)
    by reflexivity.
  split; [exact Hr|]. split; [exact Hw|].
  exact (proj1 (@mark_on_refusing_target sealed_objects 1%positive
                  {| exc_str := "a" |} empty_world Hr Hw)).
Defined.

Lemma marking_a_class_marks_its_instances_witness :
  @bases class_and_instance 2%positive = [1%positive] /\
  @accepts class_and_instance 1%positive /\
  @fresh class_and_instance 1%positive empty_world /\
  @fresh class_and_instance 2%positive empty_world /\
  (@should_use_search_index class_and_instance 2%positive
     (@mark_search_index_fallback class_and_instance 1%positive
        {| exc_str := "a" |} empty_world).2).1
  = Returned false.
Proof.
  assert (Hb : @bases class_and_instance 2%positive = [1%positive])
    by reflexivity.
  assert (Hacc : @accepts class_and_instance 1%positive)
    by (split; reflexivity).
  assert (H1 : @fresh class_and_instance 1%positive empty_world)
    by (split; reflexivity).
  assert (H2 : @fresh class_and_instance 2%positive empty_world)
    by (split; reflexivity).
  split; [exact Hb|]. split; [exact Hacc|]. split; [exact H1|].
  split; [exact H2|].
  exact (proj1 (@marking_a_class_marks_its_instances class_and_instance
                  1%positive 2%positive [] {| exc_str := "a" |} empty_world
                  Hb Hacc H1 eq_refl eq_refl)).
Defined.

End TrackerLaws.

(** ** The splitter *)

(** X7. The splitter loses and invents nothing: at most one of its two
    sides is present, the post-filter side is either absent or the
    argument itself, and the identifiers of both sides together are those
    of the argument, in order. *)
Theorem split_partitions_the_ids (group_ids : option (list string)) :
  let single := (split_group_ids group_ids).1 in
  let post := (split_group_ids group_ids).2 in
  (single = None \/ post = None) /\
  (post = None \/ post = group_ids) /\
  option_list single ++ default [] post = default [] group_ids.
Proof.
  destruct group_ids as [[|g1 [|g2 rest]]|]; cbn; auto.
Qed.

(** ** The mapping and the text, by argument *)

Lemma bind_endpoints_union (group_ids : option (list string))
    (source_node_uuid target_node_uuid : option string)
    (m n : gmap string value) :
  bind_endpoints group_ids source_node_uuid target_node_uuid (m ∪ n)
  = bind_endpoints group_ids source_node_uuid target_node_uuid m ∪ n.
Proof.
  destruct group_ids as [gs|], source_node_uuid as [u|],
    target_node_uuid as [w|]; cbn [bind_endpoints];
    rewrite ?insert_union_l; reflexivity.
Qed.

Lemma dom_scope_bindings (group_ids : option (list string))
    (m : gmap string value) :
  dom (scope_bindings group_ids m) = dom m ∪ scope_keys group_ids.
Proof.
  destruct group_ids as [[|g1 [|g2 rest]]|]; cbn [scope_bindings scope_keys];
    rewrite ?dom_union_L, ?dom_insert_L, ?dom_singleton_L; set_solver.
Qed.

Lemma dom_bind_endpoints (group_ids : option (list string))
    (source_node_uuid target_node_uuid : option string)
    (m : gmap string value) :
  dom (bind_endpoints group_ids source_node_uuid target_node_uuid m)
  = dom m ∪ endpoint_keys group_ids source_node_uuid target_node_uuid.
Proof.
  destruct group_ids as [gs|], source_node_uuid as [u|],
    target_node_uuid as [w|]; cbn [bind_endpoints endpoint_keys];
    rewrite ?dom_insert_L; set_solver.
Qed.

Lemma scope_clause_redact (v : string) (group_ids : option (list string)) :
  scope_clause v (redact group_ids) = scope_clause v group_ids.
Proof. destruct group_ids as [[|g1 [|g2 rest]]|]; reflexivity. Qed.

Lemma membership_fragment_redact (v : string)
    (group_ids : option (list string)) :
  membership_fragment v (redact group_ids) = membership_fragment v group_ids.
Proof. destruct group_ids as [[|g1 [|g2 rest]]|]; reflexivity. Qed.

Lemma endpoint_fragments_redact (group_ids : option (list string))
    (source_node_uuid target_node_uuid : option string) :
  endpoint_fragments (redact group_ids) (redact_uuid source_node_uuid)
    (redact_uuid target_node_uuid)
  = endpoint_fragments group_ids source_node_uuid target_node_uuid.
Proof.
  destruct group_ids as [gs|], source_node_uuid as [u|],
    target_node_uuid as [w|]; reflexivity.
Qed.

Section ByArgument.
Context `{C : Collaborators}.

Lemma node_text (f : SearchFilters) (group_ids : option (list string)) :
  (build_node_vector_search_query f group_ids).1
  = skeleton "MATCH (n:Entity)" "n" NEO4J_ENTITY_VECTOR_INDEX
      (scope_clause "n" group_ids) ""
      (post_clause ((node_search_filter_query_constructor f NEO4J).1
                    ++ membership_fragment "n" group_ids))
      (get_entity_node_return_query NEO4J).
Proof.
  rewrite node_shape. cbn [fst].
  rewrite index_scope_clause, with_membership_fragments. reflexivity.
Qed.

Lemma community_text (group_ids : option (list string)) :
  (build_community_vector_search_query group_ids).1
  = skeleton "MATCH (c:Community)" "c" NEO4J_COMMUNITY_VECTOR_INDEX
      (scope_clause "c" group_ids) ""
      (post_clause (membership_fragment "c" group_ids)) COMMUNITY_NODE_RETURN.
Proof.
  rewrite community_shape. cbn [fst].
  rewrite index_scope_clause, with_membership_fragments. reflexivity.
Qed.

Lemma edge_text (f : SearchFilters) (group_ids : option (list string))
    (source_node_uuid target_node_uuid : option string) :
  (build_edge_vector_search_query f group_ids source_node_uuid
     target_node_uuid).1
  = skeleton "MATCH ()-[e:RELATES_TO]-()" "e" NEO4J_EDGE_VECTOR_INDEX
      (scope_clause "e" group_ids) edge_rematch
      (post_clause ((edge_search_filter_query_constructor f NEO4J).1
                    ++ membership_fragment "e" group_ids
                    ++ endpoint_fragments group_ids source_node_uuid
                         target_node_uuid))
      (get_entity_edge_return_query NEO4J).
Proof.
  rewrite edge_shape. cbn [fst].
  rewrite index_scope_clause, with_endpoints_fragments,
    with_membership_fragments, <- app_assoc. reflexivity.
Qed.

Lemma node_mapping (f : SearchFilters) (group_ids : option (list string)) :
  (build_node_vector_search_query f group_ids).2
  = scope_bindings group_ids (node_search_filter_query_constructor f NEO4J).2.
Proof.
  rewrite node_shape.
  destruct group_ids as [[|g1 [|g2 rest]]|];
    cbn [split_group_ids length Nat.eqb fst snd with_membership index_scope
         scope_bindings];
    rewrite ?(right_id_L ∅ (∪)); reflexivity.
Qed.

Lemma community_mapping (group_ids : option (list string)) :
  (build_community_vector_search_query group_ids).2
  = scope_bindings group_ids ∅.
Proof.
  rewrite community_shape.
  destruct group_ids as [[|g1 [|g2 rest]]|];
    cbn [split_group_ids length Nat.eqb fst snd with_membership index_scope
         scope_bindings];
    rewrite ?(right_id_L ∅ (∪)); reflexivity.
Qed.

Lemma edge_mapping (f : SearchFilters) (group_ids : option (list string))
    (source_node_uuid target_node_uuid : option string) :
  (build_edge_vector_search_query f group_ids source_node_uuid
     target_node_uuid).2
  = bind_endpoints group_ids source_node_uuid target_node_uuid
      (scope_bindings group_ids
         (edge_search_filter_query_constructor f NEO4J).2).
Proof.
  rewrite edge_shape. cbn [snd]. rewrite with_endpoints_bindings.
  destruct group_ids as [[|g1 [|g2 rest]]|];
    cbn [split_group_ids length Nat.eqb fst snd with_membership index_scope
         scope_bindings];
    rewrite ?(right_id_L ∅ (∪)), ?bind_endpoints_union; reflexivity.
Qed.

(** X8. The identifiers never reach the text: blanking out every scope
    identifier and every endpoint uuid leaves the text of each assembler
    unchanged, so the text depends only on how many scope identifiers there
    are and on which endpoints are given. *)
Theorem text_ignores_the_values
    (f : SearchFilters) (group_ids : option (list string))
    (source_node_uuid target_node_uuid : option string) :
  (build_node_vector_search_query f group_ids).1
  = (build_node_vector_search_query f (redact group_ids)).1 /\
  (build_community_vector_search_query group_ids).1
  = (build_community_vector_search_query (redact group_ids)).1 /\
  (build_edge_vector_search_query f group_ids source_node_uuid
     target_node_uuid).1
  = (build_edge_vector_search_query f (redact group_ids)
       (redact_uuid source_node_uuid) (redact_uuid target_node_uuid)).1.
Proof.
  rewrite !node_text, !community_text, !edge_text.
  rewrite !scope_clause_redact, !membership_fragment_redact,
    endpoint_fragments_redact.
  repeat split.
Qed.

(** X9. The returned mapping, by argument: the filter constructor's
    mapping (empty for communities) with [group_id] added underneath it
    for a one-element scope, or [group_ids] written over it for any other
    scope that is not absent, and for edges the given endpoints written
    over that when the scope is not absent. *)
Theorem mapping_by_scope
    (f : SearchFilters) (group_ids : option (list string))
    (source_node_uuid target_node_uuid : option string) :
  (build_node_vector_search_query f group_ids).2
  = scope_bindings group_ids (node_search_filter_query_constructor f NEO4J).2 /\
  (build_community_vector_search_query group_ids).2
  = scope_bindings group_ids ∅ /\
  (build_edge_vector_search_query f group_ids source_node_uuid
     target_node_uuid).2
  = bind_endpoints group_ids source_node_uuid target_node_uuid
      (scope_bindings group_ids
         (edge_search_filter_query_constructor f NEO4J).2).
Proof.
  split; [|split].
  - apply node_mapping.
  - apply community_mapping.
  - apply edge_mapping.
Qed.

(** X10. The keys of the returned mapping are those of the filter
    constructor, one scope key when the scope is not absent, and for edges
    one key per given endpoint when the scope is not absent; nothing else is
    bound and no key of the filter constructor is dropped. *)
Theorem keys_of_the_mapping
    (f : SearchFilters) (group_ids : option (list string))
    (source_node_uuid target_node_uuid : option string) :
  dom (build_node_vector_search_query f group_ids).2
  = dom (node_search_filter_query_constructor f NEO4J).2
    ∪ scope_keys group_ids /\
  dom (build_community_vector_search_query group_ids).2
  = scope_keys group_ids /\
  dom (build_edge_vector_search_query f group_ids source_node_uuid
         target_node_uuid).2
  = dom (edge_search_filter_query_constructor f NEO4J).2
    ∪ scope_keys group_ids
    ∪ endpoint_keys group_ids source_node_uuid target_node_uuid.
Proof.
  rewrite node_mapping, community_mapping, edge_mapping.
  rewrite dom_bind_endpoints, !dom_scope_bindings, dom_empty_L.
  repeat split. set_solver.
Qed.

End ByArgument.

(** ** Precedence, the gate, and the placeholders in order *)

Lemma scope_keys_index_side (group_ids : option (list string)) :
  "group_id" ∈ scope_keys group_ids <-> exists g, group_ids = Some [g].
Proof.
  destruct group_ids as [[|g1 [|g2 rest]]|]; cbn [scope_keys]; split;
    try set_solver; try (intros [g [=]]); eauto.
Qed.

Lemma scope_keys_post_side (group_ids : option (list string)) :
  "group_ids" ∈ scope_keys group_ids
  <-> exists ids, group_ids = Some ids /\ length ids <> 1.
Proof.
  destruct group_ids as [[|g1 [|g2 rest]]|]; cbn [scope_keys]; split;
    try set_solver; try (intros (ids & [= <-] & Hlen); cbn in Hlen; congruence);
    try (intros (ids & [=] & _)); intros _; eexists; split; try reflexivity;
    cbn; congruence.
Qed.

Lemma endpoint_keys_no_scope (k : string) (group_ids : option (list string))
    (source_node_uuid target_node_uuid : option string) :
  k <> "source_uuid" -> k <> "target_uuid" ->
  k ∉ endpoint_keys group_ids source_node_uuid target_node_uuid.
Proof.
  intros Hs Ht. destruct group_ids as [gs|], source_node_uuid as [u|],
    target_node_uuid as [w|]; cbn [endpoint_keys]; set_solver.
Qed.

Lemma scope_clause_stops (v : string) (group_ids : option (list string)) :
  stops (scope_clause v group_ids) = true.
Proof. destruct group_ids as [[|g1 [|g2 rest]]|]; reflexivity. Qed.

Lemma scope_clause_placeholders (v : string) (group_ids : option (list string)) :
  dollar_free v = true ->
  placeholders (scope_clause v group_ids) = scope_placeholders group_ids.
Proof.
  intros Hv. destruct group_ids as [[|g1 [|g2 rest]]|]; try reflexivity.
  cbn [scope_clause scope_placeholders]. skip_plain. reflexivity.
Qed.

Lemma membership_fragment_placeholders (v : string)
    (group_ids : option (list string)) :
  dollar_free v = true ->
  mjoin (placeholders <$> membership_fragment v group_ids)
  = membership_placeholders group_ids.
Proof.
  intros Hv. destruct group_ids as [[|g1 [|g2 rest]]|]; try reflexivity;
    cbn [membership_fragment membership_placeholders fmap list_fmap mjoin
         list_join]; skip_plain; reflexivity.
Qed.

Lemma endpoint_fragments_placeholders (group_ids : option (list string))
    (source_node_uuid target_node_uuid : option string) :
  mjoin (placeholders <$> endpoint_fragments group_ids source_node_uuid
                            target_node_uuid)
  = endpoint_placeholders group_ids source_node_uuid target_node_uuid.
Proof.
  destruct group_ids as [gs|], source_node_uuid as [u|],
    target_node_uuid as [w|]; reflexivity.
Qed.

Section Precedence.
Context `{C : Collaborators}.

(** X11. When the filter constructor itself binds a scope key, precedence
    differs by key: its [group_id] wins over the single scope identifier,
    whereas the scope list is written over its [group_ids]. *)
Theorem collision_precedence
    (f : SearchFilters) (g g1 g2 : string) (rest : list string)
    (source_node_uuid target_node_uuid : option string) :
  let nf := (node_search_filter_query_constructor f NEO4J).2 in
  let ef := (edge_search_filter_query_constructor f NEO4J).2 in
  (build_node_vector_search_query f (Some [g])).2 !! "group_id"
  = Some (default (VStr g) (nf !! "group_id")) /\
  (build_edge_vector_search_query f (Some [g]) source_node_uuid
     target_node_uuid).2 !! "group_id"
  = Some (default (VStr g) (ef !! "group_id")) /\
  (build_node_vector_search_query f (Some (g1 :: g2 :: rest))).2 !! "group_ids"
  = Some (str_list (g1 :: g2 :: rest)) /\
  (build_edge_vector_search_query f (Some (g1 :: g2 :: rest)) source_node_uuid
     target_node_uuid).2 !! "group_ids"
  = Some (str_list (g1 :: g2 :: rest)).
Proof.
  intros nf ef. rewrite !node_mapping, !edge_mapping.
  rewrite !bind_endpoints_lookup by discriminate.
  cbn [scope_bindings]. fold nf ef.
  rewrite !lookup_union, !lookup_singleton_eq, !lookup_insert_eq.
  destruct (nf !! "group_id"), (ef !! "group_id"); repeat split.
Qed.

(** X12. Any scope that is not absent opens the endpoint gate, a single
    identifier included: both endpoints are then bound to the given uuids,
    whatever the filter constructor binds, and their predicates close the
    post-filter, source before target before the score threshold. *)
Theorem any_scope_opens_the_gate
    (f : SearchFilters) (ids : list string) (u w : string) :
  let q := build_edge_vector_search_query f (Some ids) (Some u) (Some w) in
  q.2 !! "source_uuid" = Some (VStr u) /\
  q.2 !! "target_uuid" = Some (VStr w) /\
  occurs "n.uuid = $source_uuid AND m.uuid = $target_uuid AND score > $min_score"
    q.1 = true.
Proof.
  intros q. unfold q. rewrite edge_mapping, edge_text.
  cbn [bind_endpoints endpoint_fragments].
  split; [|split].
  - rewrite lookup_insert_ne by discriminate. apply lookup_insert_eq.
  - apply lookup_insert_eq.
  - apply (skeleton_mentions_run _ _ _ _ _ _ _
             ((edge_search_filter_query_constructor f NEO4J).1
              ++ membership_fragment "e" (Some ids))
             ["n.uuid = $source_uuid"; "m.uuid = $target_uuid";
              "score > $min_score"] []); [discriminate|].
    rewrite <- !app_assoc. reflexivity.
Qed.

(** X13. Keys that this module does not reserve pass through: for such a
    key the returned mapping holds exactly what the filter constructor
    bound, and nothing for communities. *)
Theorem filter_bindings_pass_through
    (f : SearchFilters) (group_ids : option (list string))
    (source_node_uuid target_node_uuid : option string)
    (k : string) (Hk : k ∉ reserved_names) :
  (build_node_vector_search_query f group_ids).2 !! k
  = (node_search_filter_query_constructor f NEO4J).2 !! k /\
  (build_community_vector_search_query group_ids).2 !! k = None /\
  (build_edge_vector_search_query f group_ids source_node_uuid
     target_node_uuid).2 !! k
  = (edge_search_filter_query_constructor f NEO4J).2 !! k.
Proof.
  split; [|split].
  - apply node_params_other, Hk.
  - apply community_params_other, Hk.
  - apply edge_params_other, Hk.
Qed.

(** X14. Under the collaborators' contract, with the reserved names left
    alone by the filter constructors, each text scopes on exactly one side:
    it mentions [$group_id] exactly for a one-element scope and
    [$group_ids] exactly for a scope that is given with any other length,
    the empty list included. *)
Theorem scope_is_on_one_side
    (HC : Contract C) (Hclear : keeps_clear C reserved_names)
    (f : SearchFilters) (group_ids : option (list string))
    (source_node_uuid target_node_uuid : option string)
    (text : string)
    (Htext : text ∈ [ (build_node_vector_search_query f group_ids).1;
                      (build_community_vector_search_query group_ids).1;
                      (build_edge_vector_search_query f group_ids
                         source_node_uuid target_node_uuid).1 ]) :
  ("group_id" ∈ placeholder_set text <-> exists g, group_ids = Some [g]) /\
  ("group_ids" ∈ placeholder_set text
   <-> exists ids, group_ids = Some ids /\ length ids <> 1).
Proof.
  rewrite <- scope_keys_index_side, <- scope_keys_post_side.
  assert (Hid : "group_id" ∈ reserved_names)
    by (unfold reserved_names; set_solver).
  assert (Hids : "group_ids" ∈ reserved_names)
    by (unfold reserved_names; set_solver).
  destruct (Hclear f "group_id" Hid) as [Hn1 He1].
  destruct (Hclear f "group_ids" Hids) as [Hn2 He2].
  apply not_elem_of_dom in Hn1, He1, Hn2, He2.
  pose proof (endpoint_keys_no_scope "group_id" group_ids source_node_uuid
                target_node_uuid) as Hk1.
  pose proof (endpoint_keys_no_scope "group_ids" group_ids source_node_uuid
                target_node_uuid) as Hk2.
  specialize (Hk1 ltac:(discriminate) ltac:(discriminate)).
  specialize (Hk2 ltac:(discriminate) ltac:(discriminate)).
  apply elem_of_cons in Htext as [->|Htext];
    [|apply elem_of_cons in Htext as [->|Htext];
      [|apply list_elem_of_singleton in Htext as ->]].
  - rewrite (node_placeholder_set HC), node_mapping, dom_scope_bindings.
    unfold external_names. set_solver.
  - rewrite (community_placeholder_set HC), community_mapping,
      dom_scope_bindings, dom_empty_L.
    unfold external_names. set_solver.
  - rewrite (edge_placeholder_set HC), edge_mapping, dom_bind_endpoints,
      dom_scope_bindings.
    unfold external_names. set_solver.
Qed.

(** X15. With index names and return projections free of placeholders,
    the placeholders of a text, in order and with repetitions, are:
    [search_vector]; [group_id] for a one-element scope; [limit]; those of
    the filter fragments; [group_ids] for any other scope that is not
    absent; for edges the gated endpoints, source first; [min_score]; and
    [limit] again. *)
Theorem placeholders_in_order
    (HC : Contract C)
    (f : SearchFilters) (group_ids : option (list string))
    (source_node_uuid target_node_uuid : option string) :
  placeholders (build_node_vector_search_query f group_ids).1
  = ["search_vector"] ++ scope_placeholders group_ids ++ ["limit"]
    ++ mjoin (placeholders <$> (node_search_filter_query_constructor f NEO4J).1)
    ++ membership_placeholders group_ids ++ ["min_score"; "limit"] /\
  placeholders (build_community_vector_search_query group_ids).1
  = ["search_vector"] ++ scope_placeholders group_ids ++ ["limit"]
    ++ membership_placeholders group_ids ++ ["min_score"; "limit"] /\
  placeholders (build_edge_vector_search_query f group_ids source_node_uuid
                  target_node_uuid).1
  = ["search_vector"] ++ scope_placeholders group_ids ++ ["limit"]
    ++ mjoin (placeholders <$> (edge_search_filter_query_constructor f NEO4J).1)
    ++ membership_placeholders group_ids
    ++ endpoint_placeholders group_ids source_node_uuid target_node_uuid
    ++ ["min_score"; "limit"].
Proof.
  destruct HC. rewrite node_text, community_text, edge_text.
  rewrite !skeleton_placeholders
    by (reflexivity || assumption || apply scope_clause_stops).
  rewrite !scope_clause_placeholders by reflexivity.
  rewrite !fmap_app, !join_app.
  rewrite !membership_fragment_placeholders by reflexivity.
  rewrite endpoint_fragments_placeholders, <- !app_assoc.
  repeat split.
Qed.

End Precedence.

Lemma filter_bindings_pass_through_witness :
  ("uuids" ∉ reserved_names) /\
  (@build_edge_vector_search_query sample_env (Some ["u1"]) (Some ["a"])
     (Some "x") None).2 !! "uuids"
  = Some (VList [VStr "u1"]).
Proof.
  assert (Hk : "uuids" ∉ reserved_names) by (unfold reserved_names; set_solver).
  split; [exact Hk|].
  exact (proj2 (proj2
    (@filter_bindings_pass_through sample_env (Some ["u1"]) (Some ["a"])
       (Some "x") None "uuids" Hk))).
Defined.

Lemma scope_is_on_one_side_witness :
  Contract sample_env /\ keeps_clear sample_env reserved_names /\
  ("group_ids" ∈ placeholder_set
                   (@build_community_vector_search_query sample_env (Some [])).1
   <-> exists ids : list string, Some [] = Some ids /\ length ids <> 1).
Proof.
  assert (Hclear : keeps_clear sample_env reserved_names).
  { apply sample_keeps_clear. unfold reserved_names. set_solver. }
  split; [exact sample_contract|]. split; [exact Hclear|].
  refine (proj2 (@scope_is_on_one_side sample_env sample_contract Hclear None
                   (Some []) None None _ _)).
  apply elem_of_cons. right. apply elem_of_cons. left. reflexivity.
Defined.

Lemma placeholders_in_order_witness :
  Contract sample_env /\
  placeholders
    (@build_edge_vector_search_query sample_env (Some ["u1"]) (Some ["a"; "b"])
       (Some "x") (Some "y")).1
  = [ "search_vector"; "limit"; "uuids"; "group_ids"; "source_uuid";
      "target_uuid"; "min_score"; "limit" ].
Proof.
  split; [exact sample_contract|].
  exact (proj2 (proj2
    (@placeholders_in_order sample_env sample_contract (Some ["u1"])
       (Some ["a"; "b"]) (Some "x") (Some "y")))).
Defined.
